(** * llrt-express: a shallow embedding of [src/express.ts]

    The development follows the source file top to bottom:

    - the built-ins of the JavaScript runtime that the source calls
      ([JSON.stringify], [JSON.parse], [Buffer.from(_, "base64")],
      [Buffer.toString("utf-8")], [encodeURIComponent]);
    - the object store of one invocation and the monad in which the
      methods run;
    - the classes [Request], [Response] and [Router];
    - the adapter [parseRequest];
    - the properties.

    Conventions.

    - A JavaScript string is a [string], one [ascii] per character; text
      that went through a decoder is held in its UTF-8 form, one [ascii]
      per byte, and lengths count these.  [null] of a nullable string is
      [None].
    - A JSON number is the exact decimal [m * 10^e]; rounding to binary64
      is not modelled.
    - An object used as a map ([routes], [headers]) is the finite map of
      its own properties.  Reading [routes] by a name that is not an own
      property falls back to [Object.prototype], as [findRoute] spells
      out; [headers] is only built and copied.
    - Objects that the source mutates and shares (the request, the
      response, the promise) live in a store and are passed by reference.
      A router is the value it has once composition is over.
    - A handler or a middleware is its effect on the store, run to
      completion where it is called; code that would run after an [await]
      is not interleaved with its caller. *)

From Stdlib Require Import ZArith NArith Ascii String List DecimalString.
From stdpp Require Import gmap strings list.

Local Open Scope Z_scope.

(* ===================================================================== *)
(** ** Runtime built-ins *)
(* ===================================================================== *)

(** The double quote character, and a quoted string. *)
Definition dq : string := String "034"%char EmptyString.
Definition quoted (s : string) : string := dq +:+ s +:+ dq.

Fixpoint text (l : list N) : string :=
  match l with
  | [] => EmptyString
  | n :: l' => String (ascii_of_N n) (text l')
  end.

Fixpoint join (sep : string) (l : list string) : string :=
  match l with
  | [] => EmptyString
  | [s] => s
  | s :: l' => s +:+ sep +:+ join sep l'
  end.

Fixpoint repeat_str (s : string) (n : nat) : string :=
  match n with
  | O => EmptyString
  | S n' => s +:+ repeat_str s n'
  end.

(** [s.substring(n)]: the suffix of [s] from position [n] on; the empty
    string when [n] is past the end. *)
Fixpoint substring_from (n : nat) (s : string) : string :=
  match n, s with
  | O, _ => s
  | S _, EmptyString => EmptyString
  | S n', String _ s' => substring_from n' s'
  end.

(** [s.startsWith(p)]. *)
Fixpoint startsWith (s p : string) {struct p} : bool :=
  match p, s with
  | EmptyString, _ => true
  | String _ _, EmptyString => false
  | String a p', String b s' => if Ascii.eqb a b then startsWith s' p' else false
  end.

Definition digits (n : N) : string := NilZero.string_of_uint (N.to_uint n).

(** Values that JSON can express. An object is the list of its own
    properties in property order. *)
#[warnings="-register-all"]
Inductive JsValue :=
| JNull
| JBool (b : bool)
| JNum (m e : Z)
| JStr (s : string)
| JArr (xs : list JsValue)
| JObj (fields : list (string * JsValue)).

Module JSON.

(** *** [JSON.stringify] *)

Definition hex_digit (n : N) : ascii :=
  if (n <? 10)%N then ascii_of_N (48 + n) else ascii_of_N (87 + n).

Definition quote_char (c : ascii) : string :=
  let n := N_of_ascii c in
  if (n =? 8)%N then "\b"
  else if (n =? 9)%N then "\t"
  else if (n =? 10)%N then "\n"
  else if (n =? 12)%N then "\f"
  else if (n =? 13)%N then "\r"
  else if (n =? 34)%N then "\" +:+ dq
  else if (n =? 92)%N then "\\"
  else if (n <? 32)%N then
    "\u00" +:+ String (hex_digit (n / 16)) (String (hex_digit (n mod 16)) EmptyString)
  else String c EmptyString.

Fixpoint quote_chars (s : string) : string :=
  match s with
  | EmptyString => EmptyString
  | String c s' => quote_char c +:+ quote_chars s'
  end.

Definition quote (s : string) : string := quoted (quote_chars s).

(** Strips the trailing zeros of the mantissa. *)
Fixpoint normalize (fuel : nat) (m e : Z) : Z * Z :=
  match fuel with
  | O => (m, e)
  | S fuel' =>
      if m =? 0 then (0, 0)
      else if m mod 10 =? 0 then normalize fuel' (m / 10) (e + 1)
      else (m, e)
  end.

Definition number (m e : Z) : JsValue :=
  let '(m', e') := normalize (String.length (digits (Z.abs_N m))) m e in
  JNum m' e'.

(** [Number::toString] on a decimal. *)
Definition number_to_string (m e : Z) : string :=
  let '(m, e) := normalize (String.length (digits (Z.abs_N m))) m e in
  if m =? 0 then "0"
  else
    let s := digits (Z.abs_N m) in
    let k := Z.of_nat (String.length s) in
    let n := k + e in
    let sign := if m <? 0 then "-" else "" in
    sign +:+
      (if (k <=? n) && (n <=? 21) then s +:+ repeat_str "0" (Z.to_nat (n - k))
       else if (0 <? n) && (n <=? 21) then
         String.substring 0 (Z.to_nat n) s +:+ "." +:+ substring_from (Z.to_nat n) s
       else if (-6 <? n) && (n <=? 0) then
         "0." +:+ repeat_str "0" (Z.to_nat (- n)) +:+ s
       else
         let x := n - 1 in
         let es := (if x <? 0 then "-" else "+") +:+ digits (Z.abs_N x) in
         if k =? 1 then s +:+ "e" +:+ es
         else String.substring 0 1 s +:+ "." +:+ substring_from 1 s +:+ "e" +:+ es).

Fixpoint stringify (v : JsValue) : string :=
  match v with
  | JNull => "null"
  | JBool true => "true"
  | JBool false => "false"
  | JNum m e => number_to_string m e
  | JStr s => quote s
  | JArr xs => "[" +:+ join "," (map stringify xs) +:+ "]"
  | JObj fields =>
      "{" +:+ join "," (map (fun kv => quote (fst kv) +:+ ":" +:+ stringify (snd kv)) fields)
          +:+ "}"
  end.

(** *** [JSON.parse]: a lexer over characters, then a stack automaton
    over tokens.  [None] stands for the [SyntaxError]. *)

Inductive Token :=
| TLBrace | TRBrace | TLBracket | TRBracket | TColon | TComma
| TValue (v : JsValue).

Inductive NumState :=
| NSign | NZero | NInt | NDot | NFrac | NExpMark | NExpSign | NExp.

Record NumAcc := {
  neg : bool;      (* a leading minus *)
  mant : N;        (* the digits read so far, integer and fraction *)
  fdigits : Z;     (* how many of them follow the point *)
  eneg : bool;     (* a minus in the exponent *)
  expo : N         (* the exponent digits *)
}.

Definition num_start (ng : bool) (d : N) : NumAcc :=
  {| neg := ng; mant := d; fdigits := 0; eneg := false; expo := 0 |}.

Definition num_int (a : NumAcc) (d : N) : NumAcc :=
  {| neg := neg a; mant := (mant a * 10 + d)%N; fdigits := fdigits a;
     eneg := eneg a; expo := expo a |}.

Definition num_frac (a : NumAcc) (d : N) : NumAcc :=
  {| neg := neg a; mant := (mant a * 10 + d)%N; fdigits := fdigits a + 1;
     eneg := eneg a; expo := expo a |}.

Definition num_eneg (a : NumAcc) : NumAcc :=
  {| neg := neg a; mant := mant a; fdigits := fdigits a;
     eneg := true; expo := expo a |}.

Definition num_exp (a : NumAcc) (d : N) : NumAcc :=
  {| neg := neg a; mant := mant a; fdigits := fdigits a;
     eneg := eneg a; expo := (expo a * 10 + d)%N |}.

Definition num_value (a : NumAcc) : JsValue :=
  let m := if neg a then - Z.of_N (mant a) else Z.of_N (mant a) in
  let x := if eneg a then - Z.of_N (expo a) else Z.of_N (expo a) in
  number m (x - fdigits a).

(** A character of a string literal: a byte of the text, or a code unit
    written as a [\u] escape. *)
Inductive Unit16 := Raw (b : N) | Esc (u : N).

Inductive Lex :=
| LIdle
| LLit (rest : string) (v : JsValue)
| LStr (acc : list Unit16)
| LEsc (acc : list Unit16)
| LHex (acc : list Unit16) (k : nat) (u : N)
| LNum (st : NumState) (a : NumAcc).

Definition utf8_encode (cp : N) : list N :=
  (if cp <? 128 then [cp]
   else if cp <? 2048 then [192 + cp / 64; 128 + cp mod 64]
   else if cp <? 65536 then
     [224 + cp / 4096; 128 + (cp / 64) mod 64; 128 + cp mod 64]
   else
     [240 + cp / 262144; 128 + (cp / 4096) mod 64;
      128 + (cp / 64) mod 64; 128 + cp mod 64])%N.

Definition is_high (u : N) : bool := ((55296 <=? u) && (u <=? 56319))%N.
Definition is_low (u : N) : bool := ((56320 <=? u) && (u <=? 57343))%N.

(** Escaped surrogate pairs become one code point. *)
Fixpoint encode_units (l : list Unit16) : list N :=
  match l with
  | [] => []
  | Raw b :: r => b :: encode_units r
  | Esc u :: r =>
      match r with
      | Esc lo :: r' =>
          if is_high u && is_low lo
          then utf8_encode (65536 + (u - 55296) * 1024 + (lo - 56320))%N
                 ++ encode_units r'
          else utf8_encode u ++ encode_units r
      | _ => utf8_encode u ++ encode_units r
      end
  end.

Definition str_value (acc : list Unit16) : JsValue :=
  JStr (text (encode_units (rev acc))).

Definition digit_of (c : ascii) : option N :=
  let n := N_of_ascii c in
  if ((48 <=? n) && (n <=? 57))%N then Some (n - 48)%N else None.

Definition hex_of (c : ascii) : option N :=
  let n := N_of_ascii c in
  (if (48 <=? n) && (n <=? 57) then Some (n - 48)
   else if (65 <=? n) && (n <=? 70) then Some (n - 55)
   else if (97 <=? n) && (n <=? 102) then Some (n - 87)
   else None)%N.

Definition lex_idle (c : ascii) : option (Lex * list Token) :=
  match c with
  | "009" | "010" | "013" | " " => Some (LIdle, [])
  | "{" => Some (LIdle, [TLBrace])
  | "}" => Some (LIdle, [TRBrace])
  | "[" => Some (LIdle, [TLBracket])
  | "]" => Some (LIdle, [TRBracket])
  | ":" => Some (LIdle, [TColon])
  | "," => Some (LIdle, [TComma])
  | "034" => Some (LStr [], [])
  | "-" => Some (LNum NSign (num_start true 0), [])
  | "0" => Some (LNum NZero (num_start false 0), [])
  | "n" => Some (LLit "ull" JNull, [])
  | "t" => Some (LLit "rue" (JBool true), [])
  | "f" => Some (LLit "alse" (JBool false), [])
  | _ =>
      match digit_of c with
      | Some d => Some (LNum NInt (num_start false d), [])
      | None => None
      end
  end%char.

Definition num_end (a : NumAcc) (c : ascii) : option (Lex * list Token) :=
  match lex_idle c with
  | Some (st, toks) => Some (st, TValue (num_value a) :: toks)
  | None => None
  end.

Definition is_e (c : ascii) : bool :=
  match c with "e" | "E" => true | _ => false end%char.

Definition lex_num (st : NumState) (a : NumAcc) (c : ascii)
  : option (Lex * list Token) :=
  match st, digit_of c with
  | NSign, Some d =>
      Some (LNum (if (d =? 0)%N then NZero else NInt)
              (num_start true d), [])
  | NSign, None => None
  | NZero, _ =>
      if Ascii.eqb c "." then Some (LNum NDot a, [])
      else if is_e c then Some (LNum NExpMark a, [])
      else num_end a c
  | NInt, Some d => Some (LNum NInt (num_int a d), [])
  | NInt, None =>
      if Ascii.eqb c "." then Some (LNum NDot a, [])
      else if is_e c then Some (LNum NExpMark a, [])
      else num_end a c
  | NDot, Some d => Some (LNum NFrac (num_frac a d), [])
  | NDot, None => None
  | NFrac, Some d => Some (LNum NFrac (num_frac a d), [])
  | NFrac, None =>
      if is_e c then Some (LNum NExpMark a, []) else num_end a c
  | NExpMark, Some d => Some (LNum NExp (num_exp a d), [])
  | NExpMark, None =>
      if Ascii.eqb c "+" then Some (LNum NExpSign a, [])
      else if Ascii.eqb c "-" then Some (LNum NExpSign (num_eneg a), [])
      else None
  | NExpSign, Some d => Some (LNum NExp (num_exp a d), [])
  | NExpSign, None => None
  | NExp, Some d => Some (LNum NExp (num_exp a d), [])
  | NExp, None => num_end a c
  end.

Definition lex_escape (acc : list Unit16) (c : ascii)
  : option (Lex * list Token) :=
  match c with
  | "034" => Some (LStr (Raw 34 :: acc), [])
  | "\" => Some (LStr (Raw 92 :: acc), [])
  | "/" => Some (LStr (Raw 47 :: acc), [])
  | "b" => Some (LStr (Raw 8 :: acc), [])
  | "f" => Some (LStr (Raw 12 :: acc), [])
  | "n" => Some (LStr (Raw 10 :: acc), [])
  | "r" => Some (LStr (Raw 13 :: acc), [])
  | "t" => Some (LStr (Raw 9 :: acc), [])
  | "u" => Some (LHex acc 4 0%N, [])
  | _ => None
  end%char.

Definition lex_step (st : Lex) (c : ascii) : option (Lex * list Token) :=
  match st with
  | LIdle => lex_idle c
  | LLit EmptyString _ => None
  | LLit (String x rest) v =>
      if Ascii.eqb c x then
        match rest with
        | EmptyString => Some (LIdle, [TValue v])
        | _ => Some (LLit rest v, [])
        end
      else None
  | LStr acc =>
      if Ascii.eqb c "034" then Some (LIdle, [TValue (str_value acc)])
      else if Ascii.eqb c "\" then Some (LEsc acc, [])
      else if (N_of_ascii c <? 32)%N then None
      else Some (LStr (Raw (N_of_ascii c) :: acc), [])
  | LEsc acc => lex_escape acc c
  | LHex acc k u =>
      match hex_of c with
      | Some h =>
          let u' := (u * 16 + h)%N in
          match k with
          | 1%nat => Some (LStr (Esc u' :: acc), [])
          | _ => Some (LHex acc (pred k) u', [])
          end
      | None => None
      end
  | LNum st a => lex_num st a c
  end.

Definition lex_end (st : Lex) : option (list Token) :=
  match st with
  | LIdle => Some []
  | LNum (NZero | NInt | NFrac | NExp) a => Some [TValue (num_value a)]
  | _ => None
  end.

Fixpoint lex (st : Lex) (s : string) : option (list Token) :=
  match s with
  | EmptyString => lex_end st
  | String c s' =>
      match lex_step st c with
      | Some (st', toks) =>
          match lex st' s' with
          | Some rest => Some (toks ++ rest)
          | None => None
          end
      | None => None
      end
  end.

(** Property keys that are array indices come first, in numeric order. *)
Fixpoint decimal (s : string) (acc : N) : option N :=
  match s with
  | EmptyString => Some acc
  | String c s' =>
      match digit_of c with
      | Some d => decimal s' (acc * 10 + d)%N
      | None => None
      end
  end.

Definition array_index (k : string) : option N :=
  match k with
  | EmptyString => None
  | _ =>
      match decimal k 0%N with
      | Some n =>
          if String.eqb (digits n) k && (n <? 4294967295)%N then Some n else None
      | None => None
      end
  end.

Fixpoint obj_replace (fields : list (string * JsValue)) (k : string) (v : JsValue)
  : option (list (string * JsValue)) :=
  match fields with
  | [] => None
  | (k', v') :: r =>
      if String.eqb k' k then Some ((k, v) :: r)
      else match obj_replace r k v with
           | Some r' => Some ((k', v') :: r')
           | None => None
           end
  end.

Fixpoint obj_insert_index (fields : list (string * JsValue)) (n : N)
  (k : string) (v : JsValue) : list (string * JsValue) :=
  match fields with
  | [] => [(k, v)]
  | (k', v') :: r =>
      match array_index k' with
      | Some n' =>
          if (n' <? n)%N then (k', v') :: obj_insert_index r n k v
          else (k, v) :: fields
      | None => (k, v) :: fields
      end
  end.

(** Defines property [k] of an object under construction. *)
Definition obj_set (fields : list (string * JsValue)) (k : string) (v : JsValue)
  : list (string * JsValue) :=
  match obj_replace fields k v with
  | Some fields' => fields'
  | None =>
      match array_index k with
      | Some n => obj_insert_index fields n k v
      | None => fields ++ [(k, v)]
      end
  end.

Inductive Frame :=
| FArr (acc : list JsValue)
| FObj (acc : list (string * JsValue)) (key : option string).

Inductive Mode :=
| MValue        (* a value must follow *)
| MFirst        (* after [: a value or ] *)
| MFirstKey     (* after {: a key or } *)
| MKey          (* after , in an object: a key *)
| MColon        (* after a key *)
| MNext         (* after a value in a container: , or the closing bracket *)
| MEnd (v : JsValue).  (* the text's value is complete *)

Definition push_value (v : JsValue) (stack : list Frame)
  : option (list Frame * Mode) :=
  match stack with
  | [] => Some ([], MEnd v)
  | FArr acc :: st => Some (FArr (v :: acc) :: st, MNext)
  | FObj acc (Some k) :: st => Some (FObj (obj_set acc k v) None :: st, MNext)
  | FObj _ None :: _ => None
  end.

Definition open_value (t : Token) (stack : list Frame)
  : option (list Frame * Mode) :=
  match t with
  | TValue v => push_value v stack
  | TLBracket => Some (FArr [] :: stack, MFirst)
  | TLBrace => Some (FObj [] None :: stack, MFirstKey)
  | _ => None
  end.

Definition close_array (stack : list Frame) : option (list Frame * Mode) :=
  match stack with
  | FArr acc :: st => push_value (JArr (rev acc)) st
  | _ => None
  end.

Definition close_object (stack : list Frame) : option (list Frame * Mode) :=
  match stack with
  | FObj acc None :: st => push_value (JObj acc) st
  | _ => None
  end.

Definition read_key (t : Token) (stack : list Frame)
  : option (list Frame * Mode) :=
  match t, stack with
  | TValue (JStr k), FObj acc None :: st => Some (FObj acc (Some k) :: st, MColon)
  | _, _ => None
  end.

Definition parse_step (stack : list Frame) (mode : Mode) (t : Token)
  : option (list Frame * Mode) :=
  match mode with
  | MValue => open_value t stack
  | MFirst =>
      match t with
      | TRBracket => close_array stack
      | _ => open_value t stack
      end
  | MFirstKey =>
      match t with
      | TRBrace => close_object stack
      | _ => read_key t stack
      end
  | MKey => read_key t stack
  | MColon =>
      match t with
      | TColon => Some (stack, MValue)
      | _ => None
      end
  | MNext =>
      match t, stack with
      | TComma, FArr _ :: _ => Some (stack, MValue)
      | TComma, FObj _ _ :: _ => Some (stack, MKey)
      | TRBracket, _ => close_array stack
      | TRBrace, _ => close_object stack
      | _, _ => None
      end
  | MEnd _ => None
  end.

Fixpoint parse_tokens (stack : list Frame) (mode : Mode) (ts : list Token)
  : option JsValue :=
  match ts with
  | [] => match mode with MEnd v => Some v | _ => None end
  | t :: ts' =>
      match parse_step stack mode t with
      | Some (stack', mode') => parse_tokens stack' mode' ts'
      | None => None
      end
  end.

Definition parse (s : string) : option JsValue :=
  match lex LIdle s with
  | Some ts => parse_tokens [] MValue ts
  | None => None
  end.

End JSON.


Module Buffer.

(** *** [Buffer.from(s, "base64")]: characters outside the two base64
    alphabets are skipped and decoding stops at the first [=]. *)

Definition sextet (c : ascii) : option N :=
  let n := N_of_ascii c in
  (if (65 <=? n) && (n <=? 90) then Some (n - 65)
   else if (97 <=? n) && (n <=? 122) then Some (n - 71)
   else if (48 <=? n) && (n <=? 57) then Some (n + 4)
   else if (n =? 43) || (n =? 45) then Some 62
   else if (n =? 47) || (n =? 95) then Some 63
   else None)%N.

Fixpoint sextets (s : string) : list N :=
  match s with
  | EmptyString => []
  | String c s' =>
      if Ascii.eqb c "=" then []
      else match sextet c with
           | Some x => x :: sextets s'
           | None => sextets s'
           end
  end.

Fixpoint octets (l : list N) : list N :=
  match l with
  | a :: b :: c :: d :: r =>
      (a * 4 + b / 16)%N :: ((b mod 16) * 16 + c / 4)%N
        :: ((c mod 4) * 64 + d)%N :: octets r
  | [a; b; c] => [(a * 4 + b / 16)%N; ((b mod 16) * 16 + c / 4)%N]
  | [a; b] => [(a * 4 + b / 16)%N]
  | _ => []
  end.

Definition from_base64 (s : string) : list N := octets (sextets s).

(** *** [buffer.toString("utf-8")]: well-formed sequences are kept,
    every maximal ill-formed part becomes U+FFFD. *)

Record Utf8 := {
  need : nat;          (* continuation bytes still expected *)
  lower : N;           (* bounds of the next continuation byte *)
  upper : N;
  pending : list N     (* the bytes of the sequence so far, last first *)
}.

Definition idle : Utf8 := {| need := 0; lower := 128; upper := 191; pending := [] |}.

Definition replacement : list N := [239; 191; 189]%N.

(** A byte read outside a sequence. *)
Definition lead (b : N) : Utf8 * list N :=
  (if b <=? 127 then (idle, [b])
   else if (194 <=? b) && (b <=? 223) then
     ({| need := 1; lower := 128; upper := 191; pending := [b] |}, [])
   else if (224 <=? b) && (b <=? 239) then
     ({| need := 2; lower := if b =? 224 then 160 else 128;
         upper := if b =? 237 then 159 else 191; pending := [b] |}, [])
   else if (240 <=? b) && (b <=? 244) then
     ({| need := 3; lower := if b =? 240 then 144 else 128;
         upper := if b =? 244 then 143 else 191; pending := [b] |}, [])
   else (idle, replacement))%N.

Definition feed (st : Utf8) (b : N) : Utf8 * list N :=
  match need st with
  | O => lead b
  | S n =>
      if ((lower st <=? b) && (b <=? upper st))%N then
        match n with
        | O => (idle, rev (b :: pending st))
        | _ => ({| need := n; lower := 128; upper := 191;
                   pending := b :: pending st |}, [])
        end
      else
        let '(st', out) := lead b in (st', replacement ++ out)
  end.

Fixpoint decode (st : Utf8) (l : list N) : list N :=
  match l with
  | [] => match need st with O => [] | S _ => replacement end
  | b :: l' => let '(st', out) := feed st b in out ++ decode st' l'
  end.

Definition to_utf8_string (bytes : list N) : string := text (decode idle bytes).

End Buffer.

(** [encodeURIComponent]: every byte of the UTF-8 text is escaped but the
    unreserved marks, letters and digits. *)
Definition unreserved (c : ascii) : bool :=
  let n := N_of_ascii c in
  (((65 <=? n) && (n <=? 90)) || ((97 <=? n) && (n <=? 122))
   || ((48 <=? n) && (n <=? 57)))%N
  || match c with
     | "-" | "_" | "." | "!" | "~" | "*" | "'" | "(" | ")" => true
     | _ => false
     end%char.

Definition upper_hex (n : N) : ascii :=
  if (n <? 10)%N then ascii_of_N (48 + n) else ascii_of_N (55 + n).

Fixpoint encodeURIComponent (s : string) : string :=
  match s with
  | EmptyString => EmptyString
  | String c s' =>
      (if unreserved c then String c EmptyString
       else let n := N_of_ascii c in
            String "%" (String (upper_hex (n / 16)) (String (upper_hex (n mod 16)) EmptyString)))
        +:+ encodeURIComponent s'
  end.


(* ===================================================================== *)
(** ** The objects of one invocation *)
(* ===================================================================== *)

(** Objects live in a store and are passed by reference, as in the source:
    the [Request] and the [Response] of an invocation are shared by every
    middleware and handler that receives them. *)
Abbreviation Ref := nat (only parsing).

Inductive JsError :=
| TypeError (msg : string)
| Thrown (v : JsValue).

(** class Request *)
Record Request := {
  req_body : JsValue;
  req_headers : gmap string string;
  req_method : string;
  req_path : string
}.

(** The outbound result. *)
Record APIGatewayProxyResult := {
  result_statusCode : Z;
  result_body : string;
  result_headers : gmap string string
}.

(** The one resolver the source builds, in [getResponse]:
    [(res) => resolve(this.resToResponse(res))], a closure over the
    [resolve] function of a promise. *)
Inductive Resolver :=
| ResolveResult (promise : Ref).

(** class Response *)
Record Response := {
  res_resolver : Resolver;
  res_statusCode : Z;
  res_body : string;
  res_contentType : string
}.

Inductive Promise :=
| Pending
| Fulfilled (r : APIGatewayProxyResult)
| Rejected (e : JsError).

Record World := {
  requests : list Request;
  responses : list Response;
  promises : list Promise;
  (** every call of a resolver, latest first: the promise and the value *)
  resolverCalls : list (Ref * APIGatewayProxyResult);
  (** rejections of promises that nobody awaits, latest first *)
  unhandled : list JsError
}.

Definition empty_world : World :=
  {| requests := []; responses := []; promises := [];
     resolverCalls := []; unhandled := [] |}.

Definition set_requests (f : list Request -> list Request) (w : World) : World :=
  {| requests := f (requests w); responses := responses w; promises := promises w;
     resolverCalls := resolverCalls w; unhandled := unhandled w |}.

Definition set_responses (f : list Response -> list Response) (w : World) : World :=
  {| requests := requests w; responses := f (responses w); promises := promises w;
     resolverCalls := resolverCalls w; unhandled := unhandled w |}.

Definition set_promises (f : list Promise -> list Promise) (w : World) : World :=
  {| requests := requests w; responses := responses w; promises := f (promises w);
     resolverCalls := resolverCalls w; unhandled := unhandled w |}.

Definition log_resolverCall (p : Ref) (v : APIGatewayProxyResult) (w : World) : World :=
  {| requests := requests w; responses := responses w; promises := promises w;
     resolverCalls := (p, v) :: resolverCalls w; unhandled := unhandled w |}.

Definition log_unhandled (e : JsError) (w : World) : World :=
  {| requests := requests w; responses := responses w; promises := promises w;
     resolverCalls := resolverCalls w; unhandled := e :: unhandled w |}.

(** *** The monad of method bodies: state, exceptions, and the bound on
    the depth of the middleware chain. *)
Inductive Outcome (A : Type) :=
| Returned (a : A) (w : World)
| Threw (e : JsError) (w : World)
| OutOfFuel.

Arguments Returned {A} a w.
Arguments Threw {A} e w.
Arguments OutOfFuel {A}.

Definition M (A : Type) : Type := World -> Outcome A.

Definition ret {A} (a : A) : M A := fun w => Returned a w.

Definition bind {A B} (m : M A) (f : A -> M B) : M B :=
  fun w =>
    match m w with
    | Returned a w' => f a w'
    | Threw e w' => Threw e w'
    | OutOfFuel => OutOfFuel
    end.

Definition throw {A} (e : JsError) : M A := fun w => Threw e w.

(** The result of an expression that reads no object of the store: a
    value, or an exception. *)
Inductive Try (A : Type) :=
| Value (a : A)
| Raise (e : JsError).

Arguments Value {A} a.
Arguments Raise {A} e.

Definition lift {A} (t : Try A) : M A :=
  match t with
  | Value a => ret a
  | Raise e => throw e
  end.

Notation "'do' x <- m ; k" := (bind m (fun x => k))
  (at level 10, x name, m at level 100, k at level 200).

(** A call of an [async] function whose promise is dropped: the body runs,
    and an exception in it becomes an unhandled rejection instead of
    reaching the caller. *)
Definition unawaited (m : M unit) : M unit :=
  fun w =>
    match m w with
    | Returned _ w' => Returned tt w'
    | Threw e w' => Returned tt (log_unhandled e w')
    | OutOfFuel => OutOfFuel
    end.

Definition undefined_receiver {A} : M A :=
  throw (TypeError "Cannot read properties of undefined").

Definition read_request (this : Ref) : M Request :=
  fun w =>
    match requests w !! this with
    | Some r => Returned r w
    | None => undefined_receiver w
    end.

Definition update_request (this : Ref) (f : Request -> Request) : M unit :=
  do r <- read_request this;
  fun w => Returned tt (set_requests (fun l => <[this := f r]> l) w).

Definition read_response (this : Ref) : M Response :=
  fun w =>
    match responses w !! this with
    | Some r => Returned r w
    | None => undefined_receiver w
    end.

Definition update_response (this : Ref) (f : Response -> Response) : M unit :=
  do r <- read_response this;
  fun w => Returned tt (set_responses (fun l => <[this := f r]> l) w).

(** [new Promise(...)] before its executor runs. *)
Definition new_Promise : M Ref :=
  fun w => Returned (length (promises w)) (set_promises (fun l => l ++ [Pending]) w).

(** A promise settles once: only a pending promise changes state. *)
Definition settle (p : Ref) (s : Promise) (l : list Promise) : list Promise :=
  match l !! p with
  | Some Pending => <[p := s]> l
  | _ => l
  end.

(** The [resolve] function of promise [p]. *)
Definition resolve (p : Ref) (v : APIGatewayProxyResult) : M unit :=
  fun w => Returned tt (set_promises (settle p (Fulfilled v)) (log_resolverCall p v w)).

(** An exception that leaves the executor of promise [p] rejects it. *)
Definition reject (p : Ref) (e : JsError) : M unit :=
  fun w => Returned tt (set_promises (settle p (Rejected e)) w).

Definition executor (p : Ref) (body : M unit) : M unit :=
  fun w =>
    match body w with
    | Returned _ w' => Returned tt w'
    | Threw e w' => reject p e w'
    | OutOfFuel => OutOfFuel
    end.

(* ===================================================================== *)
(** ** class Request *)
(* ===================================================================== *)

Definition set_path (p : string) (r : Request) : Request :=
  {| req_body := req_body r; req_headers := req_headers r;
     req_method := req_method r; req_path := p |}.

Definition removePathPrefix (this : Ref) (prefix : string) : M unit :=
  update_request this
    (fun r => set_path (substring_from (String.length prefix) (req_path r)) r).

Definition addPathPrefix (this : Ref) (prefix : string) : M unit :=
  update_request this (fun r => set_path (prefix +:+ req_path r) r).

(** [new Request(props)] *)
Definition new_Request (props : Request) : M Ref :=
  fun w =>
    Returned (length (requests w))
      (set_requests
         (fun l => l ++ [ {| req_body := req_body props; req_headers := req_headers props;
                             req_method := req_method props; req_path := req_path props |} ])
         w).

(* ===================================================================== *)
(** ** class Response *)
(* ===================================================================== *)

Definition set_statusCode (code : Z) (r : Response) : Response :=
  {| res_resolver := res_resolver r; res_statusCode := code;
     res_body := res_body r; res_contentType := res_contentType r |}.

Definition set_body (b : string) (r : Response) : Response :=
  {| res_resolver := res_resolver r; res_statusCode := res_statusCode r;
     res_body := b; res_contentType := res_contentType r |}.

Definition set_contentType (c : string) (r : Response) : Response :=
  {| res_resolver := res_resolver r; res_statusCode := res_statusCode r;
     res_body := res_body r; res_contentType := c |}.

(** [Router.resToResponse] *)
Definition resToResponse (res : Response) : APIGatewayProxyResult :=
  {| result_statusCode := res_statusCode res;
     result_body := res_body res;
     result_headers := {[ "Content-Type" := res_contentType res ]} |}.

(** Calling a resolver on the response [res]. *)
Definition call_resolver (f : Resolver) (res : Ref) : M unit :=
  match f with
  | ResolveResult p =>
      do r <- read_response res;
      resolve p (resToResponse r)
  end.

Definition status (this : Ref) (code : Z) : M Ref :=
  do _ <- update_response this (set_statusCode code);
  ret this.

Definition finish (this : Ref) : M unit :=
  do r <- read_response this;
  call_resolver (res_resolver r) this.

Definition json (this : Ref) (data : list (string * JsValue)) : M Ref :=
  do _ <- update_response this (set_body (JSON.stringify (JObj data)));
  do _ <- update_response this (set_contentType "application/json");
  do _ <- finish this;
  ret this.

Definition send (this : Ref) (data : string) : M Ref :=
  do _ <- update_response this (set_body data);
  do _ <- finish this;
  ret this.

(** [new Response(resolver)] *)
Definition new_Response (resolver : Resolver) : M Ref :=
  fun w =>
    Returned (length (responses w))
      (set_responses
         (fun l => l ++ [ {| res_resolver := resolver; res_statusCode := 200;
                             res_body := ""; res_contentType := "text/html" |} ])
         w).

(* ===================================================================== *)
(** ** class Router *)
(* ===================================================================== *)

Definition Handler : Type := Ref -> Ref -> M unit.

(** A middleware receives the request, the response and [next]. *)
Definition Middleware : Type := Ref -> Ref -> M unit -> M unit.

Record Route := {
  route_path : string;
  route_handler : Handler
}.

(** The closures that the array [middlewares] holds: the one it is
    initialised with, and the closure [fun] that [use] builds around a
    middleware and the index [idx]. *)
Inductive Step :=
| Terminator
| Fun (idx : Z) (middleware : Middleware).

Record Router := {
  routes : gmap string (list Route);
  middlewares : list Step
}.

(** [new Router()] *)
Definition new_Router : Router :=
  {| routes := ∅; middlewares := [Terminator] |}.

(** The body shared by [post], [get], [put], [delete] and [all]:
    [if (!this.routes[K]) this.routes[K] = []; this.routes[K].push(...)]. *)
Definition push_route (key : string) (this : Router) (path : string) (handler : Handler)
  : Router :=
  let bucket := match routes this !! key with Some l => l | None => [] end in
  {| routes := <[key := bucket ++ [ {| route_path := path; route_handler := handler |} ]]>
                 (routes this);
     middlewares := middlewares this |}.

Definition post := push_route "POST".
Definition get := push_route "GET".
Definition put := push_route "PUT".
Definition delete := push_route "DELETE".
Definition all := push_route "ALL".

(** The properties that every object inherits from [Object.prototype]:
    functions, and the prototype itself under [__proto__].  None of them
    is nullish and none has a [find]. *)
Definition Object_prototype : list string :=
  [ "constructor"; "hasOwnProperty"; "isPrototypeOf"; "propertyIsEnumerable";
    "toLocaleString"; "toString"; "valueOf"; "__proto__";
    "__defineGetter__"; "__defineSetter__"; "__lookupGetter__"; "__lookupSetter__" ].

Definition inherited (name : string) : bool :=
  existsb (String.eqb name) Object_prototype.

Definition find_is_not_a_function : JsError :=
  TypeError "this.routes[method]?.find is not a function".

(** [this.routes[method]?.find(...)].  [routes] is a plain object: an own
    property is a bucket; a name that is not an own property but is
    inherited reads a value on which [?.] goes on and [.find] is not a
    function; any other name reads [undefined], where [?.] stops. *)
Definition findRoute (this : Router) (method path : string) : Try (option Route) :=
  match routes this !! method with
  | Some bucket =>
      Value (List.find (fun route => String.eqb (route_path route) path) bucket)
  | None =>
      if inherited method
      then Raise find_is_not_a_function
      else Value None
  end.

Definition executeHandler (this : Router) (route : Route) (req res : Ref) : M unit :=
  route_handler route req res.

Definition notFound (this : Router) (req res : Ref) : M unit :=
  let handler : Handler := fun _ res =>
    do res' <- status res 404;
    do _ <- json res' [("message", JStr "not found")];
    ret tt in
  do r <- read_request req;
  let route := {| route_path := req_path r; route_handler := handler |} in
  executeHandler this route req res.

(** [getRoute] reads [req.method] and [req.path]; it takes the fields of
    the request as they are at the call. *)
Definition getRoute (this : Router) (req : Request) : Try (option Route) :=
  let method := req_method req in
  let path := req_path req in
  match findRoute this method path with
  | Raise e => Raise e
  | Value (Some route) => Value (Some route)
  | Value None =>
      match findRoute this "ALL" path with
      | Raise e => Raise e
      | Value (Some allRoute) => Value (Some allRoute)
      | Value None => Value None
      end
  end.

Definition handleRequest (this : Router) (req res : Ref) : M unit :=
  do r <- read_request req;
  do route <- lift (getRoute this r);
  match route with
  | Some route => executeHandler this route req res
  | None => notFound this req res
  end.

(** [a[i]] for an integer [i]. *)
Definition at_index {A} (a : list A) (i : Z) : option A :=
  if i <? 0 then None else a !! Z.to_nat i.

(** [a.splice(start, 0, item)] *)
Definition splice {A} (a : list A) (start : Z) (item : A) : list A :=
  let len := Z.of_nat (length a) in
  let start := if start <? 0 then Z.max (len + start) 0 else Z.min start len in
  take (Z.to_nat start) a ++ item :: drop (Z.to_nat start) a.

(** [this.middlewares[i](req, res)].  The calls nest once per step of the
    chain; [fuel] bounds the nesting. *)
Fixpoint call_middleware (fuel : nat) (this : Router) (i : Z) (req res : Ref) : M unit :=
  match fuel with
  | O => fun _ => OutOfFuel
  | S fuel' =>
      match at_index (middlewares this) i with
      | None => throw (TypeError "this.middlewares[...] is not a function")
      | Some Terminator => unawaited (handleRequest this req res)
      | Some (Fun idx middleware) =>
          let next := call_middleware fuel' this (idx + 1) req res in
          middleware req res next
      end
  end.

(** [use(middleware)]: the overload taken when the argument is not a
    string. *)
Definition use (this : Router) (middleware : Middleware) : Router :=
  let idx := Z.of_nat (length (middlewares this)) - 1 in
  let fun_ := Fun idx middleware in
  {| routes := routes this; middlewares := splice (middlewares this) idx fun_ |}.

(** The middleware that [useRouter] builds around [path] and [router]. *)
Definition mount (path : string) (router : Router) : Middleware :=
  fun req res next =>
    do r <- read_request req;
    if negb (startsWith (req_path r) path) then next
    else
      do _ <- removePathPrefix req path;
      do r' <- read_request req;
      do route <- lift (getRoute router r');
      match route with
      | None =>
          do _ <- addPathPrefix req path;
          next
      | Some _ => unawaited (handleRequest router req res)
      end.

(** [use(path, router)], the overload taken for a string, and
    [useRouter]. *)
Definition useRouter (this : Router) (path : string) (router : Router) : Router :=
  use this (mount path router).

(** [this.middlewares[0](req, res)]: the whole chain.  A chain of [n]
    steps nests at most [n] calls. *)
Definition dispatch (this : Router) (req res : Ref) : M unit :=
  call_middleware (length (middlewares this)) this 0 req res.

Definition getResponse (this : Router) (req : Ref) : M Ref :=
  do p <- new_Promise;
  do _ <- executor p
    (do res <- new_Response (ResolveResult p);
     dispatch this req res);
  ret p.

(* ===================================================================== *)
(** ** The adapter *)
(* ===================================================================== *)

Record APIGatewayProxyEvent := {
  httpMethod : string;
  event_path : string;
  event_headers : gmap string string;
  event_body : option string;
  isBase64Encoded : bool
}.

(** The invocation context, by its properties. *)
Definition Context : Type := list (string * JsValue).

(** Truthiness of a nullable string: [null] and the empty string are
    falsy. *)
Definition truthy (s : option string) : bool :=
  match s with
  | Some (String _ _) => true
  | _ => false
  end.

(** [s ?? ""] *)
Definition or_empty (s : option string) : string :=
  match s with Some x => x | None => EmptyString end.

Definition raw (s : option string) : JsValue :=
  match s with Some x => JStr x | None => JNull end.

(** [{ ...context, getRemainingTimeInMillis: undefined }] as
    [JSON.stringify] sees it: a property whose value is [undefined] is
    left out. *)
Definition context_snapshot (context : Context) : JsValue :=
  JObj (List.filter (fun kv => negb (String.eqb (fst kv) "getRemainingTimeInMillis")) context).

Definition parseRequest (event : APIGatewayProxyEvent) (context : Context) : M Ref :=
  let body : option string :=
    match event_body event with
    | Some b =>
        if isBase64Encoded event && truthy (Some b) then
          let buffer := Buffer.from_base64 b in
          Some (Buffer.to_utf8_string buffer)
        else Some b
    | None => None
    end in
  let body : JsValue :=
    match JSON.parse (or_empty body) with
    | Some parsed => parsed
    | None => raw body
    end in
  let headers :=
    <["x-apigateway-context" :=
        encodeURIComponent (JSON.stringify (context_snapshot context))]>
      (event_headers event) in
  new_Request {| req_body := body; req_headers := headers;
                 req_method := httpMethod event; req_path := event_path event |}.

Definition getLambdaResponse (this : Router) (event : APIGatewayProxyEvent)
  (context : Context) : M Ref :=
  do req <- parseRequest event context;
  getResponse this req.

(* ===================================================================== *)
(** ** Vocabulary of the properties *)
(* ===================================================================== *)

(** The request [r] once [removePathPrefix(prefix)] has run on it. *)
Definition stripped (prefix : string) (r : Request) : Request :=
  set_path (substring_from (String.length prefix) (req_path r)) r.

(** *** Route lookup as the specification words it. *)

Definition bucket_of (table : gmap string (list Route)) (method : string) : list Route :=
  match table !! method with Some l => l | None => [] end.

(** [r] is the first route of [bucket], in registration order, whose
    stored path is the request path. *)
Definition first_exact_match (bucket : list Route) (path : string) (r : Route) : Prop :=
  exists i : nat,
    bucket !! i = Some r /\ route_path r = path /\
    forall (j : nat) (r' : Route), (j < i)%nat -> bucket !! j = Some r' -> route_path r' <> path.

Definition no_exact_match (bucket : list Route) (path : string) : Prop :=
  forall (i : nat) (r : Route), bucket !! i = Some r -> route_path r <> path.

Inductive lookup (table : gmap string (list Route)) (method path : string)
  : option Route -> Prop :=
| lookup_method r :
    first_exact_match (bucket_of table method) path r ->
    lookup table method path (Some r)
| lookup_all r :
    no_exact_match (bucket_of table method) path ->
    first_exact_match (bucket_of table "ALL") path r ->
    lookup table method path (Some r)
| lookup_not_found :
    no_exact_match (bucket_of table method) path ->
    no_exact_match (bucket_of table "ALL") path ->
    lookup table method path None.

(** *** Composition of a router: the calls of its public interface. *)

Inductive Call :=
| CUse (middleware : Middleware)
| CUseRouter (path : string) (router : Router)
| CPost (path : string) (handler : Handler)
| CGet (path : string) (handler : Handler)
| CPut (path : string) (handler : Handler)
| CDelete (path : string) (handler : Handler)
| CAll (path : string) (handler : Handler).

Definition perform (this : Router) (c : Call) : Router :=
  match c with
  | CUse m => use this m
  | CUseRouter path router => useRouter this path router
  | CPost path h => post this path h
  | CGet path h => get this path h
  | CPut path h => put this path h
  | CDelete path h => delete this path h
  | CAll path h => all this path h
  end.

(** The router that a sequence of calls on [new Router()] leaves. *)
Definition compose (cs : list Call) : Router := fold_left perform cs new_Router.

(** The middleware that the calls registered, in the order of the calls. *)
Fixpoint registered (cs : list Call) : list Middleware :=
  match cs with
  | [] => []
  | CUse m :: cs' => m :: registered cs'
  | CUseRouter path router :: cs' => mount path router :: registered cs'
  | _ :: cs' => registered cs'
  end.

Definition steps (ms : list Middleware) : list Step :=
  imap (fun i m => Fun (Z.of_nat i) m) ms.

(** The chain as nested continuations: each middleware receives the rest
    of the chain as its [next]. *)
Definition chain (ms : list Middleware) (last : M unit) (req res : Ref) : M unit :=
  foldr (fun m next => m req res next) last ms.

(** A middleware that neither finishes the response nor calls [next]. *)
Definition halt : Middleware := fun _ _ _ => ret tt.

(** *** The mutators of a response. *)

Inductive Mutator :=
| CallStatus (code : Z)
| CallJson (data : list (string * JsValue))
| CallSend (data : string).

Definition mutate (this : Ref) (c : Mutator) : M Ref :=
  match c with
  | CallStatus code => status this code
  | CallJson data => json this data
  | CallSend data => send this data
  end.

Fixpoint mutate_all (this : Ref) (cs : list Mutator) : M unit :=
  match cs with
  | [] => ret tt
  | c :: cs' => do _ <- mutate this c; mutate_all this cs'
  end.

(** The response of the built-in not-found handler. *)
Definition not_found_body : string :=
  "{" +:+ quoted "message" +:+ ":" +:+ quoted "not found" +:+ "}".

Definition not_found_result : APIGatewayProxyResult :=
  {| result_statusCode := 404;
     result_body := not_found_body;
     result_headers := {[ "Content-Type" := "application/json" ]} |}.

(* ===================================================================== *)
(** ** Concrete inputs *)
(* ===================================================================== *)

Definition request0 : Request :=
  {| req_body := JNull; req_headers := ∅; req_method := "GET"; req_path := "/abc" |}.

Definition world0 : World := set_requests (fun _ => [request0]) empty_world.


Definition response0 : Response :=
  {| res_resolver := ResolveResult 0%nat; res_statusCode := 200;
     res_body := ""; res_contentType := "text/html" |}.

(** A request, a fresh response and its pending promise. *)
Definition world1 : World :=
  {| requests := [request0]; responses := [response0]; promises := [Pending];
     resolverCalls := []; unhandled := [] |}.

(** The response [resp] once the built-in not-found handler has run. *)
Definition not_found_response (resp : Response) : Response :=
  {| res_resolver := res_resolver resp; res_statusCode := 404;
     res_body := not_found_body; res_contentType := "application/json" |}.

(** A child router with one route and one middleware that answers by
    itself, and a parent that mounts it at "/api". *)
Definition widgets : Handler :=
  fun _ res => do _ <- send res "widgets"; ret tt.

Definition teapot : Middleware :=
  fun _ res _ => do res' <- status res 418; do _ <- send res' "teapot"; ret tt.

Definition child0 : Router := use (get new_Router "/widgets" widgets) teapot.

Definition parent0 : Router := useRouter new_Router "/api" child0.

Definition request_api : Request :=
  {| req_body := JNull; req_headers := ∅; req_method := "GET"; req_path := "/api/widgets" |}.

Definition request_other : Request :=
  {| req_body := JNull; req_headers := ∅; req_method := "GET"; req_path := "/other" |}.

Definition request_api_miss : Request :=
  {| req_body := JNull; req_headers := ∅; req_method := "GET"; req_path := "/api/none" |}.

Definition world_of (r : Request) : World :=
  {| requests := [r]; responses := [response0]; promises := [Pending];
     resolverCalls := []; unhandled := [] |}.

Definition result_of (code : Z) (body type : string) : APIGatewayProxyResult :=
  {| result_statusCode := code; result_body := body;
     result_headers := {[ "Content-Type" := type ]} |}.

(** The request that a call of [parseRequest] has allocated. *)
Definition allocated_request (o : Outcome Ref) : option Request :=
  match o with
  | Returned r w => requests w !! r
  | _ => None
  end.

Definition event_of (body : option string) (base64 : bool) : APIGatewayProxyEvent :=
  {| httpMethod := "POST"; event_path := "/"; event_headers := ∅;
     event_body := body; isBase64Encoded := base64 |}.

(** Two middleware that leave a mark in the body and go on, a handler that
    answers with the marks it finds, and a router that registers them in
    this order. *)
Definition mark (c : string) : Middleware :=
  fun _ res next =>
    do _ <- update_response res (fun r => set_body (res_body r +:+ c) r);
    next.

Definition marks : Handler :=
  fun _ res =>
    do r <- read_response res;
    do _ <- send res (res_body r +:+ "!");
    ret tt.

Definition ordered0 : Router :=
  get (use (use new_Router (mark "a")) (mark "b")) "/abc" marks.

(** A parent with a route of its own next to the mounted child. *)
Definition plain_child : Router := get new_Router "/widgets" widgets.

Definition parent1 : Router :=
  get (useRouter new_Router "/api" plain_child) "/other"
    (fun _ res => do _ <- send res "other"; ret tt).

(** The promise that [getResponse] returns, once the call is over. *)
Definition settled (o : Outcome Ref) : option Promise :=
  match o with
  | Returned p w => promises w !! p
  | _ => None
  end.


(* ===================================================================== *)
(** ** The application *)
(* ===================================================================== *)

(** [export const App = Router; function newApp() { return new App(); }] *)
Definition newApp : Router := new_Router.

(* ===================================================================== *)
(** ** Vocabulary of the further properties *)
(* ===================================================================== *)

(** The four registration methods that are named after an HTTP method,
    with the key of the bucket each one fills. *)
Inductive Verb := POST | GET | PUT | DELETE.

Definition verb_name (v : Verb) : string :=
  match v with
  | POST => "POST"
  | GET => "GET"
  | PUT => "PUT"
  | DELETE => "DELETE"
  end.

Definition register (v : Verb) : Router -> string -> Handler -> Router :=
  match v with
  | POST => post
  | GET => get
  | PUT => put
  | DELETE => delete
  end.

(** A request for [method] and [path]. *)
Definition request_for (body : JsValue) (headers : gmap string string)
  (method path : string) : Request :=
  {| req_body := body; req_headers := headers; req_method := method; req_path := path |}.

(** The calls that register middleware, and the calls that register
    routes. *)
Definition is_use (c : Call) : bool :=
  match c with
  | CUse _ | CUseRouter _ _ => true
  | _ => false
  end.

Definition is_route (c : Call) : bool := negb (is_use c).

(** The store right after [getResponse] has created its promise and its
    response, before the chain runs. *)
Definition fresh_response (w : World) : Response :=
  {| res_resolver := ResolveResult (length (promises w)); res_statusCode := 200;
     res_body := ""; res_contentType := "text/html" |}.

Definition with_fresh_response (w : World) : World :=
  set_responses (fun l => l ++ [fresh_response w])
    (set_promises (fun l => l ++ [Pending]) w).

Definition boom : JsError := TypeError "boom".

Definition failing : Handler := fun _ _ => throw boom.

Definition failing_middleware : Middleware := fun _ _ _ => throw boom.

(** An event that brings a header of the name the adapter uses. *)
Definition spoofing_event : APIGatewayProxyEvent :=
  {| httpMethod := "GET"; event_path := "/abc";
     event_headers := <["host" := "example.org"]> (<["x-apigateway-context" := "forged"]> ∅);
     event_body := None; isBase64Encoded := false |}.
(* ===================================================================== *)
(** ** Strings *)
(* ===================================================================== *)

Lemma startsWith_split (s p : string) :
  startsWith s p = true -> s = p +:+ substring_from (String.length p) s.
Proof.
  revert s. induction p as [|a p IH]; intros s H.
  - reflexivity.
  - destruct s as [|b s]; simpl in H; [discriminate|].
    destruct (Ascii.eqb a b) eqn:E; [|discriminate].
    apply Ascii.eqb_eq in E. subst b.
    change (String a s = String a (p +:+ substring_from (String.length p) s)).
    f_equal. now apply IH.
Qed.

Lemma startsWith_app (p s : string) : startsWith (p +:+ s) p = true.
Proof.
  induction p as [|a p IH]; [reflexivity|].
  change (startsWith (String a (p +:+ s)) (String a p) = true).
  simpl. now rewrite Ascii.eqb_refl.
Qed.

Lemma substring_from_app (p s : string) :
  substring_from (String.length p) (p +:+ s) = s.
Proof. induction p as [|a p IH]; [reflexivity | exact IH]. Qed.

(* ===================================================================== *)
(** ** The store *)
(* ===================================================================== *)

Lemma set_requests_same (w : World) (this : Ref) (r : Request) :
  requests w !! this = Some r ->
  set_requests (fun l => <[this := r]> l) w = w.
Proof.
  intros H. destruct w as [rq rs ps rc un]. unfold set_requests. simpl in *.
  now rewrite list_insert_id.
Qed.

Lemma set_path_same (r : Request) : set_path (req_path r) r = r.
Proof. now destruct r. Qed.

Lemma read_request_ok (w : World) (this : Ref) (r : Request) :
  requests w !! this = Some r -> read_request this w = Returned r w.
Proof. intros H. unfold read_request. now rewrite H. Qed.

Lemma read_response_ok (w : World) (this : Ref) (r : Response) :
  responses w !! this = Some r -> read_response this w = Returned r w.
Proof. intros H. unfold read_response. now rewrite H. Qed.

Lemma update_request_ok (w : World) (this : Ref) (r : Request) (f : Request -> Request) :
  requests w !! this = Some r ->
  update_request this f w = Returned tt (set_requests (fun l => <[this := f r]> l) w).
Proof. intros H. unfold update_request, bind. now rewrite (read_request_ok _ _ _ H). Qed.

Lemma update_response_ok (w : World) (this : Ref) (r : Response) (f : Response -> Response) :
  responses w !! this = Some r ->
  update_response this f w = Returned tt (set_responses (fun l => <[this := f r]> l) w).
Proof. intros H. unfold update_response, bind. now rewrite (read_response_ok _ _ _ H). Qed.

Lemma lookup_updated_request (w : World) (this : Ref) (r r' : Request) :
  requests w !! this = Some r ->
  requests (set_requests (fun l => <[this := r']> l) w) !! this = Some r'.
Proof.
  intros H. simpl. apply list_lookup_insert_eq. now apply lookup_lt_Some in H.
Qed.

Lemma lookup_updated_response (w : World) (this : Ref) (r r' : Response) :
  responses w !! this = Some r ->
  responses (set_responses (fun l => <[this := r']> l) w) !! this = Some r'.
Proof.
  intros H. simpl. apply list_lookup_insert_eq. now apply lookup_lt_Some in H.
Qed.

Lemma set_requests_twice (w : World) (this : Ref) (r r' : Request) :
  set_requests (fun l => <[this := r']> l) (set_requests (fun l => <[this := r]> l) w)
  = set_requests (fun l => <[this := r']> l) w.
Proof. unfold set_requests. simpl. now rewrite list_insert_insert_eq. Qed.

Lemma set_responses_twice (w : World) (this : Ref) (r r' : Response) :
  set_responses (fun l => <[this := r']> l) (set_responses (fun l => <[this := r]> l) w)
  = set_responses (fun l => <[this := r']> l) w.
Proof. unfold set_responses. simpl. now rewrite list_insert_insert_eq. Qed.

(* ===================================================================== *)
(** ** class Request *)
(* ===================================================================== *)

Lemma removePathPrefix_ok (w : World) (this : Ref) (r : Request) (p : string) :
  requests w !! this = Some r ->
  removePathPrefix this p w
  = Returned tt (set_requests (fun l => <[this := stripped p r]> l) w).
Proof. intros H. unfold removePathPrefix. now rewrite (update_request_ok _ _ _ _ H). Qed.

Lemma addPathPrefix_ok (w : World) (this : Ref) (r : Request) (p : string) :
  requests w !! this = Some r ->
  addPathPrefix this p w
  = Returned tt (set_requests (fun l => <[this := set_path (p +:+ req_path r) r]> l) w).
Proof. intros H. unfold addPathPrefix. now rewrite (update_request_ok _ _ _ _ H). Qed.

Lemma restore_stripped (p : string) (r : Request) :
  startsWith (req_path r) p = true ->
  set_path (p +:+ req_path (stripped p r)) (stripped p r) = r.
Proof.
  intros H. destruct r as [b h m pa]. unfold stripped, set_path. simpl in *.
  now rewrite <- (startsWith_split _ _ H).
Qed.

Lemma remove_then_add (w : World) (this : Ref) (r : Request) (p : string) :
  requests w !! this = Some r ->
  startsWith (req_path r) p = true ->
  (do _ <- removePathPrefix this p; addPathPrefix this p) w = Returned tt w.
Proof.
  intros H Hp. unfold bind.
  rewrite (removePathPrefix_ok _ _ _ _ H).
  rewrite (addPathPrefix_ok _ _ (stripped p r)) by (eapply lookup_updated_request; eauto).
  rewrite set_requests_twice, (restore_stripped _ _ Hp).
  now rewrite set_requests_same.
Qed.

(** C3, as stated, fails: [removePathPrefix("/x")] then
    [addPathPrefix("/x")] on the path "/abc" leaves "/xbc". *)
Lemma C3_round_trip_counterexample :
  exists w',
    (do _ <- removePathPrefix 0%nat "/x"; addPathPrefix 0%nat "/x") world0 = Returned tt w'
    /\ req_path <$> (requests world0 !! 0%nat) = Some "/abc"
    /\ req_path <$> (requests w' !! 0%nat) = Some "/xbc"
    /\ req_path <$> (requests w' !! 0%nat) <> req_path <$> (requests world0 !! 0%nat).
Proof.
  eexists. split; [reflexivity|]. split; [reflexivity|]. split; [reflexivity|].
  discriminate.
Qed.

(** C3, amended: on a request whose path starts with [p],
    [removePathPrefix(p)] followed by [addPathPrefix(p)] restores the path
    exactly (and leaves everything else as it was). *)
Theorem C3_round_trip_on_prefix (w : World) (this : Ref) (r : Request) (p : string) :
  requests w !! this = Some r ->
  startsWith (req_path r) p = true ->
  exists w',
    (do _ <- removePathPrefix this p; addPathPrefix this p) w = Returned tt w'
    /\ requests w' !! this = Some r
    /\ w' = w.
Proof.
  intros H Hp. exists w. split; [|split].
  - now apply (remove_then_add w this r p).
  - exact H.
  - reflexivity.
Qed.

Lemma C3_round_trip_on_prefix_witness :
  exists w',
    (do _ <- removePathPrefix 0%nat "/a"; addPathPrefix 0%nat "/a") world0 = Returned tt w'
    /\ requests w' !! 0%nat = Some request0
    /\ w' = world0.
Proof. apply (C3_round_trip_on_prefix world0 0%nat request0 "/a"); reflexivity. Defined.

(* ===================================================================== *)
(** ** class Response *)
(* ===================================================================== *)

Lemma settle_pending (p : Ref) (s : Promise) (l : list Promise) :
  l !! p = Some Pending -> settle p s l !! p = Some s.
Proof.
  intros H. unfold settle. rewrite H.
  apply list_lookup_insert_eq. now apply lookup_lt_Some in H.
Qed.

Lemma settle_settled (p q : Ref) (s : Promise) (l : list Promise) (v : APIGatewayProxyResult) :
  l !! q = Some (Fulfilled v) -> settle p s l !! q = Some (Fulfilled v).
Proof.
  intros H. unfold settle. destruct (l !! p) as [[| |]|] eqn:E; try exact H.
  rewrite list_lookup_insert_ne; [exact H|]. intros ->. congruence.
Qed.

Lemma status_ok (w : World) (this : Ref) (r : Response) (code : Z) :
  responses w !! this = Some r ->
  status this code w
  = Returned this (set_responses (fun l => <[this := set_statusCode code r]> l) w).
Proof.
  intros H. unfold status, bind. now rewrite (update_response_ok _ _ _ _ H).
Qed.

Lemma finish_ok (w : World) (this : Ref) (r : Response) (p : Ref) :
  responses w !! this = Some r ->
  res_resolver r = ResolveResult p ->
  finish this w = resolve p (resToResponse r) w.
Proof.
  intros H Hp. unfold finish, bind. rewrite (read_response_ok _ _ _ H), Hp.
  simpl. unfold bind. now rewrite (read_response_ok _ _ _ H).
Qed.

Lemma send_ok (w : World) (this : Ref) (r : Response) (p : Ref) (data : string) :
  responses w !! this = Some r ->
  res_resolver r = ResolveResult p ->
  let r' := set_body data r in
  send this data w
  = Returned this
      (set_promises (settle p (Fulfilled (resToResponse r')))
         (log_resolverCall p (resToResponse r')
            (set_responses (fun l => <[this := r']> l) w))).
Proof.
  intros H Hp r'. unfold send, bind.
  rewrite (update_response_ok _ _ _ _ H).
  rewrite (finish_ok _ _ r' p); [reflexivity | | exact Hp].
  eapply lookup_updated_response; eauto.
Qed.

Lemma json_ok (w : World) (this : Ref) (r : Response) (p : Ref)
  (data : list (string * JsValue)) :
  responses w !! this = Some r ->
  res_resolver r = ResolveResult p ->
  let r' := set_contentType "application/json" (set_body (JSON.stringify (JObj data)) r) in
  json this data w
  = Returned this
      (set_promises (settle p (Fulfilled (resToResponse r')))
         (log_resolverCall p (resToResponse r')
            (set_responses (fun l => <[this := r']> l) w))).
Proof.
  intros H Hp r'. unfold json, bind.
  rewrite (update_response_ok _ _ _ _ H).
  rewrite (update_response_ok _ _ (set_body (JSON.stringify (JObj data)) r))
    by (eapply lookup_updated_response; eauto).
  rewrite set_responses_twice.
  rewrite (finish_ok _ _ r' p); [reflexivity | | exact Hp].
  eapply lookup_updated_response; eauto.
Qed.

(** A mutator leaves the response in the store, with its resolver, and
    leaves every fulfilled promise as it is. *)
Lemma mutate_settled (w : World) (this : Ref) (r : Response) (c : Mutator) :
  responses w !! this = Some r ->
  exists w' r',
    mutate this c w = Returned this w'
    /\ responses w' !! this = Some r'
    /\ res_resolver r' = res_resolver r
    /\ forall q v, promises w !! q = Some (Fulfilled v) ->
                   promises w' !! q = Some (Fulfilled v).
Proof.
  intros H. destruct (res_resolver r) as [p] eqn:Hp.
  destruct c as [code|data|data]; simpl.
  - rewrite (status_ok _ _ _ _ H). do 2 eexists. split; [reflexivity|].
    split; [eapply lookup_updated_response; eauto|]. split; [exact Hp | auto].
  - rewrite (json_ok _ _ _ p _ H Hp). do 2 eexists. split; [reflexivity|].
    split; [eapply lookup_updated_response; eauto|]. split; [exact Hp|].
    intros q v Hq. simpl. now apply settle_settled.
  - rewrite (send_ok _ _ _ p _ H Hp). do 2 eexists. split; [reflexivity|].
    split; [eapply lookup_updated_response; eauto|]. split; [exact Hp|].
    intros q v Hq. simpl. now apply settle_settled.
Qed.

Lemma mutate_all_settled (cs : list Mutator) (w : World) (this : Ref) (r : Response) :
  responses w !! this = Some r ->
  exists w',
    mutate_all this cs w = Returned tt w'
    /\ forall q v, promises w !! q = Some (Fulfilled v) ->
                   promises w' !! q = Some (Fulfilled v).
Proof.
  revert w r. induction cs as [|c cs IH]; intros w r H.
  - exists w. split; [reflexivity | auto].
  - destruct (mutate_settled w this r c H) as (w1 & r1 & E & H1 & _ & K).
    destruct (IH w1 r1 H1) as (w2 & E2 & K2).
    exists w2. simpl. unfold bind. rewrite E. split; [exact E2 | auto].
Qed.

(** C9: [status(c)] sets [statusCode] to [c] and returns the same
    instance; it does not call the resolver, settles no promise and
    leaves [body] and [contentType] (and the rest of the store) as they
    were.  [json] and [send] each call the resolver once. *)
Theorem C9_status_does_not_finish (w : World) (this : Ref) (r : Response) (code : Z) :
  responses w !! this = Some r ->
  (exists w',
      status this code w = Returned this w'
      /\ responses w' !! this
         = Some {| res_resolver := res_resolver r; res_statusCode := code;
                   res_body := res_body r; res_contentType := res_contentType r |}
      /\ (forall other, other <> this -> responses w' !! other = responses w !! other)
      /\ resolverCalls w' = resolverCalls w
      /\ promises w' = promises w
      /\ requests w' = requests w
      /\ unhandled w' = unhandled w)
  /\ (forall data, exists w',
         json this data w = Returned this w'
         /\ length (resolverCalls w') = S (length (resolverCalls w)))
  /\ (forall data, exists w',
         send this data w = Returned this w'
         /\ length (resolverCalls w') = S (length (resolverCalls w))).
Proof.
  intros H. destruct (res_resolver r) as [p] eqn:Hp. split; [|split].
  - rewrite (status_ok _ _ _ _ H). eexists. split; [reflexivity|].
    split; [|split].
    + erewrite lookup_updated_response by eauto. unfold set_statusCode. now rewrite Hp.
    + intros other Hne. simpl. now rewrite list_lookup_insert_ne.
    + repeat split.
  - intros data. rewrite (json_ok _ _ _ p _ H Hp). eexists. split; reflexivity.
  - intros data. rewrite (send_ok _ _ _ p _ H Hp). eexists. split; reflexivity.
Qed.

Lemma C9_status_does_not_finish_witness :
  exists w',
    status 0%nat 404 world1 = Returned 0%nat w'
    /\ res_statusCode <$> (responses w' !! 0%nat) = Some 404
    /\ resolverCalls w' = [] /\ promises w' = [Pending].
Proof.
  destruct (C9_status_does_not_finish world1 0%nat response0 404 eq_refl)
    as [(w' & E & Hr & _ & Hc & Hp & _) _].
  exists w'. split; [exact E|]. split; [now rewrite Hr|]. split; assumption.
Defined.

(** C7: [json(m)] sets the body to the serialization of [m] and the
    content type to application/json, calls the resolver exactly once and
    returns the same instance.  A pending promise is fulfilled with the
    state of the response at that call; a promise that is already
    fulfilled keeps its value, whatever mutators are called afterwards. *)
Theorem C7_json_finishes_once (w : World) (this : Ref) (r : Response) (p : Ref)
  (data : list (string * JsValue)) :
  responses w !! this = Some r ->
  res_resolver r = ResolveResult p ->
  let r' := {| res_resolver := ResolveResult p; res_statusCode := res_statusCode r;
               res_body := JSON.stringify (JObj data);
               res_contentType := "application/json" |} in
  exists w',
    json this data w = Returned this w'
    /\ responses w' !! this = Some r'
    /\ resolverCalls w' = (p, resToResponse r') :: resolverCalls w
    /\ (promises w !! p = Some Pending ->
        promises w' !! p = Some (Fulfilled (resToResponse r')))
    /\ (forall v, promises w !! p = Some (Fulfilled v) ->
                  promises w' !! p = Some (Fulfilled v))
    /\ (forall cs v, promises w' !! p = Some (Fulfilled v) ->
          exists w'', mutate_all this cs w' = Returned tt w''
                      /\ promises w'' !! p = Some (Fulfilled v)).
Proof.
  intros H Hp r'. rewrite (json_ok _ _ _ p _ H Hp).
  assert (Hr : set_contentType "application/json"
                 (set_body (JSON.stringify (JObj data)) r) = r').
  { unfold set_contentType, set_body, r'. simpl. now rewrite Hp. }
  rewrite Hr. eexists. split; [reflexivity|].
  assert (Hl : responses
                 (set_promises (settle p (Fulfilled (resToResponse r')))
                    (log_resolverCall p (resToResponse r')
                       (set_responses (fun l => <[this := r']> l) w))) !! this = Some r').
  { simpl. apply list_lookup_insert_eq. now apply lookup_lt_Some in H. }
  split; [exact Hl|]. split; [reflexivity|]. split; [|split].
  - intros Hq. simpl. now apply settle_pending.
  - intros v Hq. simpl. now apply settle_settled.
  - intros cs v Hq.
    destruct (mutate_all_settled cs _ this r' Hl) as (w'' & E & K).
    exists w''. split; [exact E | now apply K].
Qed.

Lemma C7_json_finishes_once_witness :
  exists w',
    json 0%nat [("x", JNum 1 0)] world1 = Returned 0%nat w'
    /\ promises w' !! 0%nat
       = Some (Fulfilled {| result_statusCode := 200;
                            result_body := "{" +:+ quoted "x" +:+ ":1}";
                            result_headers := {[ "Content-Type" := "application/json" ]} |})
    /\ exists w'',
        mutate_all 0%nat [CallStatus 500; CallSend "late"; CallJson []] w' = Returned tt w''
        /\ promises w'' !! 0%nat = promises w' !! 0%nat.
Proof.
  destruct (C7_json_finishes_once world1 0%nat response0 0%nat [("x", JNum 1 0)]
              eq_refl eq_refl) as (w' & E & _ & _ & Hpend & _ & Hlater).
  exists w'. split; [exact E|].
  pose proof (Hpend eq_refl) as Hf. split; [exact Hf|].
  destruct (Hlater [CallStatus 500; CallSend "late"; CallJson []] _ Hf) as (w'' & E2 & K).
  exists w''. split; [exact E2 | now rewrite K, Hf].
Defined.

(* ===================================================================== *)
(** ** Route lookup *)
(* ===================================================================== *)

Section Find.
Variable path : string.


Lemma find_first (bucket : list Route) (r : Route) :
  List.find (fun route : Route => String.eqb (route_path route) path) bucket = Some r <-> first_exact_match bucket path r.
Proof.
  induction bucket as [|x l IH]; simpl.
  - split; [discriminate|]. intros (i & H & _). now destruct i.
  - destruct (String.eqb (route_path x) path) eqn:E.
    + apply String.eqb_eq in E. split.
      * intros [= <-]. exists 0%nat. split; [reflexivity|]. split; [exact E|]. lia.
      * intros (i & H & _ & Hmin). destruct i as [|i]; [now inversion H|].
        exfalso. apply (Hmin 0%nat x); [lia | reflexivity | exact E].
    + apply String.eqb_neq in E. rewrite IH. split.
      * intros (i & H & Hp & Hmin). exists (S i). split; [exact H|]. split; [exact Hp|].
        intros [|j] r' Hj Hr'; [now inversion Hr'; subst|].
        apply (Hmin j); [lia | exact Hr'].
      * intros (i & H & Hp & Hmin). destruct i as [|i].
        { inversion H; subst. contradiction. }
        exists i. split; [exact H|]. split; [exact Hp|].
        intros j r' Hj Hr'. apply (Hmin (S j)); [lia | exact Hr'].
Qed.

Lemma find_none (bucket : list Route) :
  List.find (fun route : Route => String.eqb (route_path route) path) bucket = None <-> no_exact_match bucket path.
Proof.
  induction bucket as [|x l IH]; simpl.
  - split; [|reflexivity]. intros _ i r H. now destruct i.
  - destruct (String.eqb (route_path x) path) eqn:E.
    + apply String.eqb_eq in E. split; [discriminate|].
      intros H. exfalso. now apply (H 0%nat x).
    + apply String.eqb_neq in E. rewrite IH. split.
      * intros H [|i] r Hr; [now inversion Hr; subst | now apply (H i)].
      * intros H i r Hr. now apply (H (S i)).
Qed.

Lemma find_snoc (bucket : list Route) (x : Route) :
  List.find (fun route : Route => String.eqb (route_path route) path) (bucket ++ [x])
  = match List.find (fun route : Route => String.eqb (route_path route) path) bucket with
    | Some r => Some r
    | None => if String.eqb (route_path x) path then Some x else None
    end.
Proof.
  induction bucket as [|y l IH]; simpl; [reflexivity|].
  now destruct (String.eqb (route_path y) path).
Qed.
End Find.

Lemma first_exact_match_unique (bucket : list Route) (path : string) (r r' : Route) :
  first_exact_match bucket path r -> first_exact_match bucket path r' -> r = r'.
Proof.
  intros H H'. apply find_first in H, H'. congruence.
Qed.

Lemma inherited_all : inherited "ALL" = false.
Proof. reflexivity. Qed.

Lemma findRoute_own (this : Router) (method path : string) (bucket : list Route) :
  routes this !! method = Some bucket ->
  findRoute this method path
  = Value (List.find (fun route => String.eqb (route_path route) path) bucket).
Proof. intros H. unfold findRoute. now rewrite H. Qed.

(** Where the method is an own property of [routes] or is not inherited,
    [findRoute] searches the method's bucket. *)
Lemma findRoute_value (this : Router) (method path : string) :
  is_Some (routes this !! method) \/ inherited method = false ->
  findRoute this method path
  = Value (List.find (fun route => String.eqb (route_path route) path)
             (bucket_of (routes this) method)).
Proof.
  intros H. unfold findRoute, bucket_of.
  destruct (routes this !! method) as [b|]; [reflexivity|].
  destruct H as [[b H] | H]; [discriminate | now rewrite H].
Qed.

(** Where it is inherited and not an own property, [findRoute] throws. *)
Lemma findRoute_raise (this : Router) (method path : string) :
  routes this !! method = None ->
  inherited method = true ->
  findRoute this method path = Raise find_is_not_a_function.
Proof. intros H Hi. unfold findRoute. now rewrite H, Hi. Qed.

Lemma findRoute_value_inv (this : Router) (method path : string) (o : option Route) :
  findRoute this method path = Value o ->
  (is_Some (routes this !! method) \/ inherited method = false)
  /\ o = List.find (fun route => String.eqb (route_path route) path)
           (bucket_of (routes this) method).
Proof.
  unfold findRoute, bucket_of.
  destruct (routes this !! method) as [b|].
  - intros [= <-]. split; [left; eauto | reflexivity].
  - destruct (inherited method); [discriminate|].
    intros [= <-]. split; [now right | reflexivity].
Qed.

Lemma findRoute_all (this : Router) (path : string) :
  findRoute this "ALL" path
  = Value (List.find (fun route => String.eqb (route_path route) path)
             (bucket_of (routes this) "ALL")).
Proof. apply findRoute_value. right. reflexivity. Qed.

Lemma getRoute_raise (this : Router) (req : Request) :
  routes this !! req_method req = None ->
  inherited (req_method req) = true ->
  getRoute this req = Raise find_is_not_a_function.
Proof. intros H Hi. unfold getRoute. now rewrite (findRoute_raise _ _ _ H Hi). Qed.

Lemma getRoute_lookup (this : Router) (req : Request) (o : option Route) :
  is_Some (routes this !! req_method req) \/ inherited (req_method req) = false ->
  lookup (routes this) (req_method req) (req_path req) o <-> getRoute this req = Value o.
Proof.
  intros Hd. unfold getRoute. rewrite (findRoute_value _ _ _ Hd), findRoute_all. split.
  - intros [r H | r Hn H | Hn Hn'].
    + apply find_first in H. now rewrite H.
    + apply find_none in Hn. apply find_first in H. now rewrite Hn, H.
    + apply find_none in Hn, Hn'. now rewrite Hn, Hn'.
  - destruct (List.find _ (bucket_of (routes this) (req_method req))) as [r|] eqn:E.
    + intros [= <-]. apply lookup_method. now apply find_first.
    + apply find_none in E.
      destruct (List.find _ (bucket_of (routes this) "ALL")) as [r|] eqn:E'.
      * intros [= <-]. apply lookup_all; [exact E | now apply find_first].
      * intros [= <-]. apply lookup_not_found; [exact E | now apply find_none].
Qed.

(** A registration appends to the end of its bucket and leaves the other
    buckets alone. *)
Lemma bucket_push_route (this : Router) (key path : string) (handler : Handler)
  (method : string) :
  bucket_of (routes (push_route key this path handler)) method
  = bucket_of (routes this) method
      ++ (if String.eqb key method
          then [ {| route_path := path; route_handler := handler |} ] else []).
Proof.
  unfold push_route, bucket_of. simpl.
  destruct (String.eqb key method) eqn:E.
  - apply String.eqb_eq in E. subst. now rewrite lookup_insert_eq.
  - apply String.eqb_neq in E. rewrite lookup_insert_ne by exact E.
    now rewrite app_nil_r.
Qed.

Lemma findRoute_push_same (this : Router) (key p : string) (h : Handler) (path : string) :
  findRoute (push_route key this p h) key path
  = Value match List.find (fun route => String.eqb (route_path route) path)
                  (bucket_of (routes this) key) with
          | Some r => Some r
          | None =>
              if String.eqb p path
              then Some {| route_path := p; route_handler := h |} else None
          end.
Proof.
  rewrite findRoute_value by (left; unfold push_route; simpl; rewrite lookup_insert_eq; eauto).
  rewrite bucket_push_route, String.eqb_refl, find_snoc. reflexivity.
Qed.

Lemma findRoute_push_other (this : Router) (key p : string) (h : Handler)
  (method path : string) :
  String.eqb key method = false ->
  findRoute (push_route key this p h) method path = findRoute this method path.
Proof.
  intros E. apply String.eqb_neq in E. unfold findRoute, push_route. simpl.
  now rewrite lookup_insert_ne by exact E.
Qed.

Lemma findRoute_push_route (this : Router) (key p : string) (h : Handler)
  (method path : string) (o : option Route) :
  findRoute this method path = Value o ->
  findRoute (push_route key this p h) method path
  = Value match o with
          | Some r => Some r
          | None =>
              if String.eqb key method && String.eqb p path
              then Some {| route_path := p; route_handler := h |} else None
          end.
Proof.
  intros H. destruct (String.eqb key method) eqn:E.
  - apply String.eqb_eq in E. subst key.
    apply findRoute_value_inv in H. destruct H as [_ ->].
    apply findRoute_push_same.
  - rewrite (findRoute_push_other _ _ _ _ _ _ E), H. now destruct o.
Qed.

Lemma findRoute_duplicate (this : Router) (key p : string) (h1 h2 : Handler)
  (method path : string) :
  findRoute (push_route key (push_route key this p h1) p h2) method path
  = findRoute (push_route key this p h1) method path.
Proof.
  destruct (String.eqb key method) eqn:E.
  - apply String.eqb_eq in E. subst key.
    rewrite (findRoute_push_same (push_route method this p h1)), bucket_push_route.
    rewrite String.eqb_refl, find_snoc, findRoute_push_same. simpl.
    destruct (List.find _ (bucket_of (routes this) method)); [reflexivity|].
    now destruct (String.eqb p path).
  - now rewrite !(findRoute_push_other _ _ _ _ _ _ E).
Qed.

(** C2, where the code departs from the claim.  For a method that names
    a property inherited from [Object.prototype], such as "constructor",
    the reference function of the specification says not-found, and
    [getRoute] throws a [TypeError] instead: the [?.] of [findRoute] only
    stops at a bucket that is [undefined].  For every other method, and
    for a method that is an own property of the table, [getRoute] is the
    reference function, and of two registrations of one (method, path)
    the earlier is returned and the later never is. *)
Theorem C2_lookup_throws_on_inherited_method :
  (lookup (routes new_Router) "constructor" "/" None
   /\ getRoute new_Router (request_for JNull ∅ "constructor" "/")
      = Raise find_is_not_a_function)
  /\ (forall this req,
         routes this !! req_method req = None ->
         inherited (req_method req) = true ->
         getRoute this req = Raise find_is_not_a_function)
  /\ (forall this req o,
         is_Some (routes this !! req_method req) \/ inherited (req_method req) = false ->
         (lookup (routes this) (req_method req) (req_path req) o
          <-> getRoute this req = Value o))
  /\ (forall this key p h method,
         bucket_of (routes (push_route key this p h)) method
         = bucket_of (routes this) method
             ++ (if String.eqb key method
                 then [ {| route_path := p; route_handler := h |} ] else []))
  /\ (forall this req key p h1 h2,
         getRoute (push_route key (push_route key this p h1) p h2) req
         = getRoute (push_route key this p h1) req)
  /\ (forall this req p h1 h2,
         findRoute this (req_method req) p = Value None ->
         getRoute (push_route (req_method req) (push_route (req_method req) this p h1) p h2)
           (set_path p req)
         = Value (Some {| route_path := p; route_handler := h1 |})).
Proof.
  split.
  { split; [|reflexivity].
    apply lookup_not_found; intros i r H; now destruct i. }
  split; [intros; now apply getRoute_raise|].
  split; [intros; now apply getRoute_lookup|].
  split; [intros; apply bucket_push_route|].
  split.
  - intros. unfold getRoute. now rewrite !findRoute_duplicate.
  - intros this req p h1 h2 Hn. unfold getRoute. cbn [req_method req_path set_path].
    rewrite findRoute_duplicate, (findRoute_push_route _ _ _ _ _ _ _ Hn).
    now rewrite !String.eqb_refl.
Qed.

Lemma C2_lookup_throws_on_inherited_method_witness :
  getRoute new_Router (request_for JNull ∅ "toString" "/abc") = Raise find_is_not_a_function
  /\ (lookup (routes (get new_Router "/abc" widgets)) "GET" "/abc"
        (Some {| route_path := "/abc"; route_handler := widgets |})
      <-> getRoute (get new_Router "/abc" widgets) request0
          = Value (Some {| route_path := "/abc"; route_handler := widgets |}))
  /\ getRoute (get (get new_Router "/a" (fun _ _ => ret tt)) "/a" failing)
       (set_path "/a" request0)
     = Value (Some {| route_path := "/a"; route_handler := fun _ _ => ret tt |}).
Proof.
  destruct C2_lookup_throws_on_inherited_method as (_ & Hraise & Hlookup & _ & _ & Hdup).
  split; [|split].
  - apply (Hraise new_Router (request_for JNull ∅ "toString" "/abc")); reflexivity.
  - apply (Hlookup (get new_Router "/abc" widgets) request0). right. reflexivity.
  - apply (Hdup new_Router request0 "/a"). reflexivity.
Defined.

(* ===================================================================== *)
(** ** Route dispatch *)
(* ===================================================================== *)

Arguments handleRequest : simpl never.
Arguments notFound : simpl never.
Arguments call_middleware : simpl never.

Lemma call_terminator (fuel : nat) (this : Router) (i : Z) (req res : Ref) :
  at_index (middlewares this) i = Some Terminator ->
  call_middleware (S fuel) this i req res = unawaited (handleRequest this req res).
Proof. intros H. unfold call_middleware. now rewrite H. Qed.

Lemma call_fun (fuel : nat) (this : Router) (i idx : Z) (m : Middleware) (req res : Ref) :
  at_index (middlewares this) i = Some (Fun idx m) ->
  call_middleware (S fuel) this i req res
  = m req res (call_middleware fuel this (idx + 1) req res).
Proof. intros H. unfold call_middleware at 1. now rewrite H. Qed.

Lemma handleRequest_hit (this : Router) (w : World) (req res : Ref) (r : Request)
  (route : Route) :
  requests w !! req = Some r ->
  getRoute this r = Value (Some route) ->
  handleRequest this req res w = executeHandler this route req res w.
Proof.
  intros H Hr. unfold handleRequest, bind. now rewrite (read_request_ok _ _ _ H), Hr.
Qed.

(** A lookup that throws makes [handleRequest] throw, before anything is
    written. *)
Lemma handleRequest_raise (this : Router) (w : World) (req res : Ref) (r : Request)
  (e : JsError) :
  requests w !! req = Some r ->
  getRoute this r = Raise e ->
  handleRequest this req res w = Threw e w.
Proof.
  intros H Hr. unfold handleRequest, bind. now rewrite (read_request_ok _ _ _ H), Hr.
Qed.

Lemma notFound_ok (this : Router) (w : World) (req res : Ref) (r : Request)
  (resp : Response) (p : Ref) :
  requests w !! req = Some r ->
  responses w !! res = Some resp ->
  res_resolver resp = ResolveResult p ->
  notFound this req res w
  = Returned tt
      (set_promises (settle p (Fulfilled not_found_result))
         (log_resolverCall p not_found_result
            (set_responses (fun l => <[res := not_found_response resp]> l) w))).
Proof.
  intros H Hres Hp. unfold notFound, executeHandler, bind.
  rewrite (read_request_ok _ _ _ H). simpl. unfold bind.
  rewrite (status_ok _ _ _ _ Hres).
  rewrite (json_ok _ _ (set_statusCode 404 resp) p);
    [| eapply lookup_updated_response; eauto | exact Hp].
  rewrite set_responses_twice. reflexivity.
Qed.

Lemma handleRequest_miss (this : Router) (w : World) (req res : Ref) (r : Request)
  (resp : Response) (p : Ref) :
  requests w !! req = Some r ->
  responses w !! res = Some resp ->
  res_resolver resp = ResolveResult p ->
  getRoute this r = Value None ->
  handleRequest this req res w
  = Returned tt
      (set_promises (settle p (Fulfilled not_found_result))
         (log_resolverCall p not_found_result
            (set_responses (fun l => <[res := not_found_response resp]> l) w))).
Proof.
  intros H Hres Hp Hn. unfold handleRequest, bind.
  rewrite (read_request_ok _ _ _ H), Hn. now apply notFound_ok with (r := r).
Qed.

Lemma dispatch_terminator_only (this : Router) (req res : Ref) :
  middlewares this = [Terminator] ->
  call_middleware (length (middlewares this)) this 0 req res
  = unawaited (handleRequest this req res).
Proof.
  intros H. rewrite H. change (length [Terminator]) with 1%nat.
  apply call_terminator. now rewrite H.
Qed.

(** C6, where the code departs from the claim.  On a new router, a
    request for the method "constructor" matches no route of the method's
    bucket and none of the "ALL" bucket, yet route dispatch does not run
    the built-in handler: the lookup throws a [TypeError], [handleRequest]
    writes no response and never calls the resolver; through
    [getResponse] the promise stays pending and the error is left as an
    unhandled rejection.  Whenever the lookup itself answers that there is
    no route, dispatch does what the claim says: it returns normally with
    status 404, the body [{"message":"not found"}], the content type
    application/json and one call of the resolver, and on a router without
    middleware [getResponse] fulfils its promise with that result. *)
Theorem C6_no_response_on_inherited_method :
  (let r := request_for JNull ∅ "constructor" "/" in
   lookup (routes new_Router) (req_method r) (req_path r) None
   /\ handleRequest new_Router 0%nat 0%nat (world_of r)
      = Threw find_is_not_a_function (world_of r)
   /\ exists w',
       getResponse new_Router 0%nat (world_of r) = Returned 1%nat w'
       /\ promises w' !! 1%nat = Some Pending
       /\ resolverCalls w' = []
       /\ unhandled w' = [find_is_not_a_function])
  /\ (forall (this : Router) (w : World) (req res : Ref) (r : Request) (resp : Response)
            (p : Ref),
         requests w !! req = Some r ->
         responses w !! res = Some resp ->
         res_resolver resp = ResolveResult p ->
         findRoute this (req_method r) (req_path r) = Value None ->
         findRoute this "ALL" (req_path r) = Value None ->
         (exists w',
             handleRequest this req res w = Returned tt w'
             /\ responses w' !! res
                = Some {| res_resolver := ResolveResult p; res_statusCode := 404;
                          res_body := "{" +:+ quoted "message" +:+ ":" +:+ quoted "not found"
                                          +:+ "}";
                          res_contentType := "application/json" |}
             /\ resolverCalls w' = (p, not_found_result) :: resolverCalls w
             /\ (promises w !! p = Some Pending ->
                 promises w' !! p = Some (Fulfilled not_found_result))
             /\ requests w' = requests w
             /\ unhandled w' = unhandled w)
         /\ (middlewares this = [Terminator] ->
             exists w',
               getResponse this req w = Returned (length (promises w)) w'
               /\ promises w' !! length (promises w) = Some (Fulfilled not_found_result)
               /\ requests w' = requests w
               /\ unhandled w' = unhandled w)).
Proof.
  split.
  { split; [apply lookup_not_found; intros i r H; now destruct i|].
    split; [reflexivity|]. eexists. repeat split. }
  intros this w req res r resp p H Hres Hp Hm Ha.
  assert (Hn : getRoute this r = Value None) by (unfold getRoute; now rewrite Hm, Ha).
  split.
  - rewrite (handleRequest_miss _ _ _ _ _ _ _ H Hres Hp Hn).
    eexists. split; [reflexivity|]. split; [|split; [|split]].
    + simpl. rewrite list_lookup_insert_eq by (eapply lookup_lt_Some; eauto).
      unfold not_found_response. now rewrite Hp.
    + reflexivity.
    + intros Hq. simpl. now apply settle_pending.
    + split; reflexivity.
  - intros Hmw. unfold getResponse, dispatch, bind, new_Promise, executor, new_Response.
    rewrite (dispatch_terminator_only _ _ _ Hmw).
    unfold unawaited.
    erewrite (handleRequest_miss this _ req _ r
                {| res_resolver := ResolveResult (length (promises w));
                   res_statusCode := 200; res_body := "";
                   res_contentType := "text/html" |} (length (promises w)));
      [| exact H | | reflexivity | exact Hn].
    2:{ simpl. now rewrite lookup_app_r, Nat.sub_diag by lia. }
    unfold ret. eexists. split; [reflexivity|]. split; [|split; reflexivity].
    simpl. apply settle_pending. now rewrite lookup_app_r, Nat.sub_diag by lia.
Qed.

Lemma C6_no_response_on_inherited_method_witness :
  exists w',
    getResponse (get new_Router "/widgets" (fun _ _ => ret tt)) 0%nat world1 = Returned 1%nat w'
    /\ promises w' !! 1%nat
       = Some (Fulfilled
                 {| result_statusCode := 404;
                    result_body := "{" +:+ quoted "message" +:+ ":" +:+ quoted "not found" +:+ "}";
                    result_headers := {[ "Content-Type" := "application/json" ]} |}).
Proof.
  destruct C6_no_response_on_inherited_method as [_ K].
  destruct (K (get new_Router "/widgets" (fun _ _ => ret tt)) world1
              0%nat 0%nat request0 response0 0%nat
              eq_refl eq_refl eq_refl eq_refl eq_refl) as [_ K'].
  destruct (K' eq_refl) as (w' & E & Hp & _).
  exists w'. split; [exact E | exact Hp].
Defined.

(* ===================================================================== *)
(** ** Mounting *)
(* ===================================================================== *)

Lemma mount_other_prefix (s : string) (C : Router) (req res : Ref) (next : M unit)
  (w : World) (r : Request) :
  requests w !! req = Some r ->
  startsWith (req_path r) s = false ->
  mount s C req res next w = next w.
Proof.
  intros H Hs. unfold mount, bind. now rewrite (read_request_ok _ _ _ H), Hs.
Qed.

Lemma mount_no_route (s : string) (C : Router) (req res : Ref) (next : M unit)
  (w : World) (r : Request) :
  requests w !! req = Some r ->
  startsWith (req_path r) s = true ->
  getRoute C (stripped s r) = Value None ->
  mount s C req res next w = next w.
Proof.
  intros H Hs Hn. unfold mount, bind.
  rewrite (read_request_ok _ _ _ H), Hs. simpl.
  rewrite (removePathPrefix_ok _ _ _ _ H).
  assert (H' : requests (set_requests (fun l => <[req := stripped s r]> l) w) !! req
               = Some (stripped s r)) by (eapply lookup_updated_request; eauto).
  rewrite (read_request_ok _ _ _ H'), Hn. simpl.
  rewrite (addPathPrefix_ok _ _ _ _ H').
  rewrite set_requests_twice, (restore_stripped _ _ Hs).
  now rewrite set_requests_same.
Qed.

Lemma mount_route (s : string) (C : Router) (req res : Ref) (next : M unit)
  (w : World) (r : Request) (route : Route) :
  requests w !! req = Some r ->
  startsWith (req_path r) s = true ->
  getRoute C (stripped s r) = Value (Some route) ->
  mount s C req res next w
  = unawaited (handleRequest C req res)
      (set_requests (fun l => <[req := stripped s r]> l) w).
Proof.
  intros H Hs Hr. unfold mount, bind.
  rewrite (read_request_ok _ _ _ H), Hs. simpl.
  rewrite (removePathPrefix_ok _ _ _ _ H).
  assert (H' : requests (set_requests (fun l => <[req := stripped s r]> l) w) !! req
               = Some (stripped s r)) by (eapply lookup_updated_request; eauto).
  now rewrite (read_request_ok _ _ _ H'), Hr.
Qed.

(** A peek that throws leaves the mount step with the path stripped and
    the continuation not called. *)
Lemma mount_raise (s : string) (C : Router) (req res : Ref) (next : M unit)
  (w : World) (r : Request) (e : JsError) :
  requests w !! req = Some r ->
  startsWith (req_path r) s = true ->
  getRoute C (stripped s r) = Raise e ->
  mount s C req res next w
  = Threw e (set_requests (fun l => <[req := stripped s r]> l) w).
Proof.
  intros H Hs Hr. unfold mount, bind.
  rewrite (read_request_ok _ _ _ H), Hs. simpl.
  rewrite (removePathPrefix_ok _ _ _ _ H).
  assert (H' : requests (set_requests (fun l => <[req := stripped s r]> l) w) !! req
               = Some (stripped s r)) by (eapply lookup_updated_request; eauto).
  now rewrite (read_request_ok _ _ _ H'), Hr.
Qed.

(** C4, where the code departs from the claim.  The child is mounted at
    "/api"; the request is for the method "constructor" and the path
    "/api/none".  The path starts with the prefix and the child's route
    table has no route for the stripped path, yet the mount step neither
    restores the path nor calls its continuation: the peek throws a
    [TypeError] out of the step, with the path left stripped, and
    [getResponse] on the parent is rejected.  In the first case of the
    claim (the path does not start with the prefix), and in the second
    whenever the peek itself answers that there is no route, the step
    falls through to the next step of the chain in the very world it was
    called in. *)
Theorem C4_mount_peek_throws_on_inherited_method :
  (let r := request_for JNull ∅ "constructor" "/api/none" in
   startsWith (req_path r) "/api" = true
   /\ lookup (routes child0) (req_method r) "/none" None
   /\ (forall next : M unit,
          mount "/api" child0 0%nat 0%nat next (world_of r)
          = Threw find_is_not_a_function
              (set_requests (fun l => <[0%nat := set_path "/none" r]> l) (world_of r)))
   /\ settled (getResponse parent0 0%nat (world_of r))
      = Some (Rejected find_is_not_a_function))
  /\ (forall (this : Router) (i idx : Z) (s : string) (C : Router) (fuel : nat)
            (req res : Ref) (w : World) (r : Request),
         at_index (middlewares this) i = Some (Fun idx (mount s C)) ->
         requests w !! req = Some r ->
         startsWith (req_path r) s = false
         \/ (startsWith (req_path r) s = true /\ getRoute C (stripped s r) = Value None) ->
         call_middleware (S fuel) this i req res w
         = call_middleware fuel this (idx + 1) req res w
         /\ forall next : M unit, mount s C req res next w = next w).
Proof.
  split.
  { split; [reflexivity|].
    split.
    { apply lookup_not_found; intros i r H.
      - now destruct i.
      - now destruct i. }
    split; [|reflexivity].
    intros next.
    apply (mount_raise "/api" child0 0%nat 0%nat next
             (world_of (request_for JNull ∅ "constructor" "/api/none"))
             (request_for JNull ∅ "constructor" "/api/none")); reflexivity. }
  intros this i idx s C fuel req res w r Hi H Hcase.
  assert (K : forall next : M unit, mount s C req res next w = next w).
  { intros next. destruct Hcase as [Hs | [Hs Hn]].
    - now apply mount_other_prefix with (r := r).
    - now apply mount_no_route with (r := r). }
  split; [|exact K]. rewrite (call_fun _ _ _ _ _ _ _ Hi). apply K.
Qed.

Lemma C4_mount_peek_throws_on_inherited_method_witness :
  (forall next : M unit,
      mount "/api" child0 0%nat 0%nat next (world_of request_other)
      = next (world_of request_other))
  /\ (forall next : M unit,
      mount "/api" child0 0%nat 0%nat next (world_of request_api_miss)
      = next (world_of request_api_miss)).
Proof.
  destruct C4_mount_peek_throws_on_inherited_method as [_ K].
  split.
  - apply (K parent0 0 0 "/api" child0 0%nat 0%nat 0%nat
             (world_of request_other) request_other eq_refl eq_refl).
    left. reflexivity.
  - apply (K parent0 0 0 "/api" child0 0%nat 0%nat 0%nat
             (world_of request_api_miss) request_api_miss eq_refl eq_refl).
    right. split; reflexivity.
Defined.

(** C1, as stated, fails.  The child has a middleware that answers 418 by
    itself and a route GET /widgets; the parent mounts it at "/api".  On
    GET /api/widgets the path starts with the prefix and the child has a
    route for the stripped path, yet the mount step is not the child's
    full dispatch on the stripped request: the step answers with the
    route's handler, the child's chain answers 418.  So does
    [getResponse] on the parent. *)
Lemma C1_full_dispatch_counterexample :
  startsWith (req_path request_api) "/api" = true
  /\ getRoute child0 (stripped "/api" request_api)
     = Value (Some {| route_path := "/widgets"; route_handler := widgets |})
  /\ mount "/api" child0 0%nat 0%nat (ret tt) (world_of request_api)
     <> (do _ <- removePathPrefix 0%nat "/api"; dispatch child0 0%nat 0%nat)
          (world_of request_api)
  /\ (exists w1 w2,
         mount "/api" child0 0%nat 0%nat (ret tt) (world_of request_api) = Returned tt w1
         /\ (do _ <- removePathPrefix 0%nat "/api"; dispatch child0 0%nat 0%nat)
              (world_of request_api) = Returned tt w2
         /\ promises w1 !! 0%nat = Some (Fulfilled (result_of 200 "widgets" "text/html"))
         /\ promises w2 !! 0%nat = Some (Fulfilled (result_of 418 "teapot" "text/html")))
  /\ (exists w',
         getResponse parent0 0%nat (world_of request_api) = Returned 1%nat w'
         /\ promises w' !! 1%nat = Some (Fulfilled (result_of 200 "widgets" "text/html")))
  /\ (exists w',
         getResponse child0 0%nat (world_of (stripped "/api" request_api)) = Returned 1%nat w'
         /\ promises w' !! 1%nat = Some (Fulfilled (result_of 418 "teapot" "text/html"))).
Proof.
  split; [reflexivity|]. split; [reflexivity|].
  split; [vm_compute; discriminate|].
  split.
  { do 2 eexists. split; [vm_compute; reflexivity|].
    split; [vm_compute; reflexivity|]. split; reflexivity. }
  split; eexists; split; reflexivity.
Qed.

(** C1, amended: when the request path starts with the prefix and the
    child's route lookup returns a route for the method and the stripped
    path, the mount step strips the prefix and invokes the child's route
    dispatch ([handleRequest]), which runs the handler of that route on
    the request with the rewritten path.  The child's middleware chain
    takes no part in it: the step is the same whatever middleware the
    child has registered. *)
Theorem C1_mount_invokes_route_dispatch (this : Router) (i idx : Z) (s : string)
  (C : Router) (fuel : nat) (req res : Ref) (w : World) (r : Request) (route : Route) :
  at_index (middlewares this) i = Some (Fun idx (mount s C)) ->
  requests w !! req = Some r ->
  startsWith (req_path r) s = true ->
  getRoute C (stripped s r) = Value (Some route) ->
  let w' := set_requests (fun l => <[req := stripped s r]> l) w in
  removePathPrefix req s w = Returned tt w'
  /\ call_middleware (S fuel) this i req res w = unawaited (handleRequest C req res) w'
  /\ handleRequest C req res w' = route_handler route req res w'
  /\ forall (ms : list Step) (next : M unit),
       mount s {| routes := routes C; middlewares := ms |} req res next w
       = mount s C req res next w.
Proof.
  intros Hi H Hs Hr w'. split; [|split; [|split]].
  - now apply removePathPrefix_ok.
  - rewrite (call_fun _ _ _ _ _ _ _ Hi). now apply mount_route with (route := route).
  - apply (handleRequest_hit C w' req res (stripped s r) route); [|exact Hr].
    eapply lookup_updated_request; eauto.
  - intros ms next.
    rewrite (mount_route s C req res next w r route H Hs Hr).
    rewrite (mount_route s {| routes := routes C; middlewares := ms |}
               req res next w r route H Hs Hr).
    unfold unawaited. fold w'.
    rewrite (handleRequest_hit C w' req res (stripped s r) route);
      [| eapply lookup_updated_request; eauto | exact Hr].
    rewrite (handleRequest_hit {| routes := routes C; middlewares := ms |}
               w' req res (stripped s r) route);
      [reflexivity | eapply lookup_updated_request; eauto | exact Hr].
Qed.

Lemma C1_mount_invokes_route_dispatch_witness :
  call_middleware 1 parent0 0 0%nat 0%nat (world_of request_api)
  = unawaited (handleRequest child0 0%nat 0%nat) (world_of (stripped "/api" request_api)).
Proof.
  apply (C1_mount_invokes_route_dispatch parent0 0 0 "/api" child0 0 0%nat 0%nat
           (world_of request_api) request_api
           {| route_path := "/widgets"; route_handler := widgets |}
           eq_refl eq_refl eq_refl eq_refl).
Defined.

(* ===================================================================== *)
(** ** The middleware chain *)
(* ===================================================================== *)

Lemma compose_snoc (cs : list Call) (c : Call) :
  compose (cs ++ [c]) = perform (compose cs) c.
Proof. unfold compose. now rewrite fold_left_app. Qed.

Lemma registered_app (cs cs' : list Call) :
  registered (cs ++ cs') = registered cs ++ registered cs'.
Proof.
  induction cs as [|c cs IH]; [reflexivity|].
  destruct c; simpl; now rewrite IH.
Qed.

Lemma steps_snoc (ms : list Middleware) (m : Middleware) :
  steps (ms ++ [m]) = steps ms ++ [Fun (Z.of_nat (length ms)) m].
Proof.
  unfold steps. rewrite imap_app. simpl. now rewrite Nat.add_0_r.
Qed.

Lemma length_steps (ms : list Middleware) : length (steps ms) = length ms.
Proof. unfold steps. apply length_imap. Qed.

(** [use] puts its step right before the terminator. *)
Lemma use_before_terminator (this : Router) (ms : list Middleware) (m : Middleware) :
  middlewares this = steps ms ++ [Terminator] ->
  middlewares (use this m)
  = steps ms ++ [Fun (Z.of_nat (length ms)) m; Terminator].
Proof.
  intros H. unfold use, splice. simpl. rewrite H.
  rewrite length_app, length_steps. simpl.
  replace (Z.of_nat (length ms + 1) - 1) with (Z.of_nat (length ms)) by lia.
  destruct (Z.of_nat (length ms) <? 0) eqn:E; [apply Z.ltb_lt in E; lia|].
  rewrite Z.min_l by lia. rewrite Nat2Z.id.
  rewrite take_app_length' by (now rewrite length_steps).
  now rewrite drop_app_length' by (now rewrite length_steps).
Qed.

Lemma compose_middlewares (cs : list Call) :
  middlewares (compose cs) = steps (registered cs) ++ [Terminator].
Proof.
  induction cs as [|c cs IH] using rev_ind; [reflexivity|].
  rewrite compose_snoc, registered_app.
  destruct c; cbn [perform registered]; rewrite ?app_nil_r; try exact IH.
  - rewrite (use_before_terminator _ _ _ IH), steps_snoc. now rewrite <- app_assoc.
  - unfold useRouter.
    rewrite (use_before_terminator _ _ _ IH), steps_snoc. now rewrite <- app_assoc.
Qed.

Lemma at_index_step (ms : list Middleware) (i : nat) (m : Middleware) :
  ms !! i = Some m ->
  at_index (steps ms ++ [Terminator]) (Z.of_nat i) = Some (Fun (Z.of_nat i) m).
Proof.
  intros H. unfold at_index. destruct (Z.of_nat i <? 0) eqn:E; [apply Z.ltb_lt in E; lia|].
  rewrite Nat2Z.id, lookup_app_l by (rewrite length_steps; eapply lookup_lt_Some; eauto).
  unfold steps. now rewrite list_lookup_imap, H.
Qed.

Lemma at_index_terminator (ms : list Middleware) :
  at_index (steps ms ++ [Terminator]) (Z.of_nat (length ms)) = Some Terminator.
Proof.
  unfold at_index. destruct (Z.of_nat (length ms) <? 0) eqn:E; [apply Z.ltb_lt in E; lia|].
  rewrite Nat2Z.id. rewrite <- (length_steps ms). apply list_lookup_middle. reflexivity.
Qed.

(** From step [i] on, the calls are the nested continuations of the
    registered middleware, ending in route dispatch. *)
Lemma chain_from (this : Router) (ms : list Middleware) (req res : Ref) :
  middlewares this = steps ms ++ [Terminator] ->
  forall (k i fuel : nat),
    (i + k = length ms)%nat -> (k < fuel)%nat ->
    call_middleware fuel this (Z.of_nat i) req res
    = chain (drop i ms) (unawaited (handleRequest this req res)) req res.
Proof.
  intros H. induction k as [|k IH]; intros i fuel Hi Hf.
  - destruct fuel as [|fuel]; [lia|].
    assert (i = length ms) by lia. subst i.
    rewrite call_terminator by (rewrite H; apply at_index_terminator).
    now rewrite drop_all.
  - destruct fuel as [|fuel]; [lia|].
    destruct (ms !! i) as [m|] eqn:E.
    2:{ apply lookup_ge_None in E. lia. }
    rewrite (call_fun fuel this _ (Z.of_nat i) m)
      by (rewrite H; now apply at_index_step).
    rewrite (drop_S _ _ _ E). simpl.
    replace (Z.of_nat i + 1) with (Z.of_nat (S i)) by lia.
    rewrite (IH (S i) fuel) by lia. reflexivity.
Qed.

Lemma dispatch_chain (this : Router) (ms : list Middleware) (req res : Ref) :
  middlewares this = steps ms ++ [Terminator] ->
  dispatch this req res = chain ms (unawaited (handleRequest this req res)) req res.
Proof.
  intros H. unfold dispatch.
  rewrite (chain_from this ms req res H (length ms) 0%nat); [reflexivity | lia |].
  rewrite H, length_app, length_steps. simpl. lia.
Qed.

Lemma chain_app (ms ms' : list Middleware) (last : M unit) (req res : Ref) :
  chain (ms ++ ms') last req res = chain ms (chain ms' last req res) req res.
Proof. unfold chain. apply foldr_app. Qed.

(** C5: after any sequence of [use(fn)], [use(prefix, router)] and route
    registrations on a new router, the array of steps is the registered
    middleware in registration order, each step carrying its own index,
    followed by the terminator as the final element; a further [use] puts
    its step right before the terminator.  Dispatch runs the registered
    middleware in that order, each receiving the rest of the chain as its
    continuation, with route dispatch as the innermost continuation; after
    a middleware that never calls its continuation nothing further
    runs. *)
Theorem C5_middleware_chain (cs : list Call) (req res : Ref) :
  let this := compose cs in
  let ms := registered cs in
  middlewares this = steps ms ++ [Terminator]
  /\ last (middlewares this) = Some Terminator
  /\ (forall m, middlewares (use this m)
                = steps ms ++ [Fun (Z.of_nat (length ms)) m; Terminator])
  /\ (forall path router,
         middlewares (useRouter this path router)
         = steps ms ++ [Fun (Z.of_nat (length ms)) (mount path router); Terminator])
  /\ dispatch this req res
     = chain ms (unawaited (handleRequest this req res)) req res
  /\ (forall cs',
         dispatch (compose (cs ++ CUse halt :: cs')) req res
         = chain ms (ret tt) req res).
Proof.
  intros this ms. pose proof (compose_middlewares cs) as H. fold this ms in H.
  split; [exact H|]. split; [rewrite H; apply last_snoc|].
  split; [intros m; now apply use_before_terminator|].
  split; [intros path router; now apply use_before_terminator|].
  split; [now apply dispatch_chain|].
  intros cs'.
  rewrite (dispatch_chain _ (registered (cs ++ CUse halt :: cs')))
    by apply compose_middlewares.
  rewrite registered_app. simpl. now rewrite chain_app.
Qed.

(* ===================================================================== *)
(** ** The adapter *)
(* ===================================================================== *)

Lemma parse_empty : JSON.parse "" = None.
Proof. reflexivity. Qed.

Lemma decode_empty : Buffer.to_utf8_string (Buffer.from_base64 "") = "".
Proof. reflexivity. Qed.

(** The text that [JSON.parse] is given for a body that is a string. *)
Lemma parseRequest_body (event : APIGatewayProxyEvent) (context : Context) (w : World) :
  exists request,
    parseRequest event context w
    = Returned (length (requests w)) (set_requests (fun l => l ++ [request]) w)
    /\ req_method request = httpMethod event
    /\ req_path request = event_path event
    /\ req_body request
       = match event_body event with
         | Some s =>
             let text :=
               if isBase64Encoded event
               then Buffer.to_utf8_string (Buffer.from_base64 s) else s in
             match JSON.parse text with
             | Some parsed => parsed
             | None => JStr text
             end
         | None => JNull
         end.
Proof.
  unfold parseRequest, new_Request. eexists. split; [reflexivity|].
  split; [reflexivity|]. split; [reflexivity|]. simpl.
  destruct (event_body event) as [s|]; [|reflexivity].
  destruct (isBase64Encoded event); [|reflexivity].
  destruct s as [|c s]; reflexivity.
Qed.

Lemma allocated_snoc (w : World) (request : Request) :
  allocated_request
    (Returned (length (requests w)) (set_requests (fun l => l ++ [request]) w))
  = Some request.
Proof. simpl. apply list_lookup_middle. reflexivity. Qed.

(** C8: the adapter returns normally, and the body of the request it
    builds is computed from the body of the event so: a body flagged as
    base64 is decoded to text first; the text is parsed as JSON; when the
    parse succeeds the body is the parsed value, and when it fails the
    body is the text itself.  A base64 body that decodes to [{"a":1}]
    gives the object with the one property [a] of value 1, and one that
    decodes to [hello] gives the string "hello". *)
Theorem C8_body_decoding (event : APIGatewayProxyEvent) (context : Context) (w : World) :
  (exists ref w', parseRequest event context w = Returned ref w')
  /\ (forall s, event_body event = Some s ->
        let text :=
          if isBase64Encoded event
          then Buffer.to_utf8_string (Buffer.from_base64 s) else s in
        req_body <$> allocated_request (parseRequest event context w)
        = Some match JSON.parse text with
               | Some parsed => parsed
               | None => JStr text
               end)
  /\ Buffer.to_utf8_string (Buffer.from_base64 "eyJhIjoxfQ==") = "{" +:+ quoted "a" +:+ ":1}"
  /\ req_body <$> allocated_request (parseRequest (event_of (Some "eyJhIjoxfQ==") true) context w)
     = Some (JObj [("a", JNum 1 0)])
  /\ req_body <$> allocated_request
                    (parseRequest (event_of (Some ("{" +:+ quoted "a" +:+ ":1}")) false) context w)
     = Some (JObj [("a", JNum 1 0)])
  /\ Buffer.to_utf8_string (Buffer.from_base64 "aGVsbG8=") = "hello"
  /\ req_body <$> allocated_request (parseRequest (event_of (Some "aGVsbG8=") true) context w)
     = Some (JStr "hello")
  /\ req_body <$> allocated_request (parseRequest (event_of (Some "hello") false) context w)
     = Some (JStr "hello").
Proof.
  assert (K : forall e, exists request,
               allocated_request (parseRequest e context w) = Some request
               /\ req_body request
                  = match event_body e with
                    | Some s =>
                        let text :=
                          if isBase64Encoded e
                          then Buffer.to_utf8_string (Buffer.from_base64 s) else s in
                        match JSON.parse text with
                        | Some parsed => parsed
                        | None => JStr text
                        end
                    | None => JNull
                    end).
  { intros e. destruct (parseRequest_body e context w) as (rq & E & _ & _ & Hb).
    exists rq. rewrite E, allocated_snoc. now split. }
  split.
  { destruct (parseRequest_body event context w) as (rq & E & _). eauto. }
  split.
  { intros s Hs text. destruct (K event) as (rq & E & Hb).
    rewrite E. simpl. f_equal. rewrite Hb, Hs. reflexivity. }
  split; [reflexivity|].
  split. { destruct (K (event_of (Some "eyJhIjoxfQ==") true)) as (rq & E & Hb).
           rewrite E. simpl. f_equal. exact Hb. }
  split. { destruct (K (event_of (Some ("{" +:+ quoted "a" +:+ ":1}")) false)) as (rq & E & Hb).
           rewrite E. simpl. f_equal. exact Hb. }
  split; [reflexivity|].
  split. { destruct (K (event_of (Some "aGVsbG8=") true)) as (rq & E & Hb).
           rewrite E. simpl. f_equal. exact Hb. }
  destruct (K (event_of (Some "hello") false)) as (rq & E & Hb).
  rewrite E. simpl. f_equal. exact Hb.
Qed.

Lemma C8_body_decoding_witness :
  req_body <$> allocated_request
                 (parseRequest (event_of (Some "WzEsMl0=") true) [] empty_world)
  = Some (JArr [JNum 1 0; JNum 2 0]).
Proof.
  apply (proj1 (proj2 (C8_body_decoding (event_of (Some "WzEsMl0=") true) [] empty_world))
           "WzEsMl0=" eq_refl).
Defined.

(** C10: for an event whose body is null, whatever its base64 flag, the
    body of the request is null: the parse of the empty string that stands
    in for it fails, and the null body is kept. *)
Theorem C10_null_body (event : APIGatewayProxyEvent) (context : Context) (w : World) :
  event_body event = None ->
  JSON.parse (or_empty (event_body event)) = None
  /\ req_body <$> allocated_request (parseRequest event context w) = Some JNull.
Proof.
  intros H. rewrite H. split; [reflexivity|].
  destruct (parseRequest_body event context w) as (rq & E & _ & _ & Hb).
  rewrite E, allocated_snoc. simpl. f_equal. now rewrite Hb, H.
Qed.

Lemma C10_null_body_witness :
  req_body <$> allocated_request (parseRequest (event_of None true) [] empty_world)
  = Some JNull
  /\ req_body <$> allocated_request (parseRequest (event_of None false) [] empty_world)
     = Some JNull.
Proof.
  split.
  - apply (C10_null_body (event_of None true) [] empty_world eq_refl).
  - apply (C10_null_body (event_of None false) [] empty_world eq_refl).
Defined.

(* ===================================================================== *)
(** ** The testable properties of the specification, on examples *)
(* ===================================================================== *)

Example middleware_runs_in_registration_order :
  settled (getResponse ordered0 0%nat (world_of request0))
  = Some (Fulfilled (result_of 200 "ab!" "text/html")).
Proof. reflexivity. Qed.

Example mounted_route_is_reached :
  settled (getResponse parent1 0%nat (world_of request_api))
  = Some (Fulfilled (result_of 200 "widgets" "text/html")).
Proof. reflexivity. Qed.

Example parent_route_is_reached_past_the_mount :
  settled (getResponse parent1 0%nat (world_of request_other))
  = Some (Fulfilled (result_of 200 "other" "text/html")).
Proof. reflexivity. Qed.

Example unmatched_under_the_prefix_is_not_found :
  settled (getResponse parent1 0%nat (world_of request_api_miss))
  = Some (Fulfilled not_found_result).
Proof. reflexivity. Qed.

Example halted_chain_never_settles :
  settled (getResponse (use ordered0 halt) 0%nat (world_of request0)) = Some Pending.
Proof. reflexivity. Qed.

Example all_bucket_is_the_fallback :
  settled (getResponse (all new_Router "/abc" widgets) 0%nat (world_of request0))
  = Some (Fulfilled (result_of 200 "widgets" "text/html")).
Proof. reflexivity. Qed.

Example stringify_parse_example :
  option_map JSON.stringify (JSON.parse " [1, 2.50, -3e2, true, null, {}, 1e-7, 12e25] ")
  = Some "[1,2.5,-300,true,null,{},1e-7,1.2e+26]".
Proof. reflexivity. Qed.

Example parse_rejects_trailing_comma : JSON.parse "[1,]" = None.
Proof. reflexivity. Qed.

(* ===================================================================== *)
(** ** Further properties: class Request *)
(* ===================================================================== *)

Lemma length_substring_from (n : nat) (s : string) :
  String.length (substring_from n s) = (String.length s - n)%nat.
Proof.
  revert s. induction n as [|n IH]; intros s; simpl; [lia|].
  destruct s as [|c s]; simpl; [reflexivity | apply IH].
Qed.

Lemma substring_from_suffix (n : nat) (s : string) :
  exists dropped,
    s = dropped +:+ substring_from n s
    /\ String.length dropped = Nat.min n (String.length s).
Proof.
  revert s. induction n as [|n IH]; intros s.
  - exists "". split; [reflexivity|]. simpl. lia.
  - destruct s as [|c s].
    + exists "". split; reflexivity.
    + destruct (IH s) as (d & E & L). exists (String c d). split.
      * change (String c s = String c (d +:+ substring_from n s)). now f_equal.
      * simpl. now rewrite L.
Qed.

Lemma substring_from_all (n : nat) (s : string) :
  (String.length s <= n)%nat -> substring_from n s = "".
Proof.
  intros H. pose proof (length_substring_from n s) as L.
  destruct (substring_from n s); [reflexivity | simpl in L; lia].
Qed.

(** X1: [addPathPrefix(p)] followed by [removePathPrefix(p)] restores the
    request for every string [p], whether or not the path starts with
    it. *)
Theorem X1_add_then_remove (w : World) (this : Ref) (r : Request) (p : string) :
  requests w !! this = Some r ->
  (do _ <- addPathPrefix this p; removePathPrefix this p) w = Returned tt w.
Proof.
  intros H. unfold bind.
  rewrite (addPathPrefix_ok _ _ _ _ H).
  rewrite (removePathPrefix_ok _ _ (set_path (p +:+ req_path r) r))
    by (eapply lookup_updated_request; eauto).
  rewrite set_requests_twice.
  replace (stripped p (set_path (p +:+ req_path r) r)) with r.
  - now rewrite set_requests_same.
  - destruct r as [b h m pa]. unfold stripped, set_path. simpl.
    now rewrite substring_from_app.
Qed.

Lemma X1_add_then_remove_witness :
  (do _ <- addPathPrefix 0%nat "/x"; removePathPrefix 0%nat "/x") world0 = Returned tt world0.
Proof. apply (X1_add_then_remove world0 0%nat request0 "/x" eq_refl). Defined.

(** X2: [removePathPrefix(p)] never looks at the characters it drops: it
    cuts as many characters off the front of the path as [p] is long (all
    of them when the path is no longer than [p]), keeps the rest as the
    new path, and changes no other field of the request and no other
    object. *)
Theorem X2_removePathPrefix_cuts_by_length (w : World) (this : Ref) (r : Request)
  (p : string) :
  requests w !! this = Some r ->
  exists r',
    removePathPrefix this p w = Returned tt (set_requests (fun l => <[this := r']> l) w)
    /\ req_body r' = req_body r
    /\ req_headers r' = req_headers r
    /\ req_method r' = req_method r
    /\ String.length (req_path r') = (String.length (req_path r) - String.length p)%nat
    /\ (exists dropped,
           req_path r = dropped +:+ req_path r'
           /\ String.length dropped
              = Nat.min (String.length p) (String.length (req_path r)))
    /\ ((String.length (req_path r) <= String.length p)%nat -> req_path r' = "").
Proof.
  intros H. exists (stripped p r). split; [now apply removePathPrefix_ok|].
  split; [reflexivity|]. split; [reflexivity|]. split; [reflexivity|].
  unfold stripped. simpl. split; [apply length_substring_from|].
  split; [apply substring_from_suffix | apply substring_from_all].
Qed.

Lemma X2_removePathPrefix_cuts_by_length_witness :
  exists r',
    removePathPrefix 0%nat "/much/longer" world0
    = Returned tt (set_requests (fun l => <[0%nat := r']> l) world0)
    /\ req_path r' = "".
Proof.
  destruct (X2_removePathPrefix_cuts_by_length world0 0%nat request0 "/much/longer" eq_refl)
    as (r' & E & _ & _ & _ & _ & _ & K).
  exists r'. split; [exact E|]. apply K. simpl. lia.
Defined.

(* ===================================================================== *)
(** ** Further properties: route registration *)
(* ===================================================================== *)

Lemma register_push (v : Verb) : register v = push_route (verb_name v).
Proof. now destruct v. Qed.

Lemma verb_not_all (v : Verb) : String.eqb "ALL" (verb_name v) = false.
Proof. now destruct v. Qed.

Lemma verb_not_inherited (v : Verb) : inherited (verb_name v) = false.
Proof. now destruct v. Qed.

(** X3: a route registered with [post], [get], [put] or [delete] is found
    by a request of that method and path: lookup returns the route that an
    earlier registration of the same method and path left, and the new
    route when there is none.  A route registered with [all] is found by a
    request of any method that names no property inherited from
    [Object.prototype], after the routes of that method and the earlier
    routes of the "ALL" bucket; for a method that names one and has no
    bucket of its own, lookup throws and the route is not found. *)
Theorem X3_register_then_lookup (this : Router) (path : string) (handler : Handler)
  (body : JsValue) (headers : gmap string string) :
  let new := {| route_path := path; route_handler := handler |} in
  (forall v : Verb,
      getRoute (register v this path handler)
        (request_for body headers (verb_name v) path)
      = Value (Some match findRoute this (verb_name v) path with
                    | Value (Some earlier) => earlier
                    | _ => new
                    end))
  /\ (forall method : string,
         inherited method = false ->
         getRoute (all this path handler) (request_for body headers method path)
         = Value (Some match findRoute this method path with
                       | Value (Some own) => own
                       | _ =>
                           match findRoute this "ALL" path with
                           | Value (Some earlier) => earlier
                           | _ => new
                           end
                       end))
  /\ (forall method : string,
         inherited method = true ->
         routes this !! method = None ->
         getRoute (all this path handler) (request_for body headers method path)
         = Raise find_is_not_a_function).
Proof.
  intros new. split; [|split].
  - intros v. rewrite register_push. unfold getRoute, request_for.
    cbn [req_method req_path].
    rewrite findRoute_push_same.
    rewrite (findRoute_value this (verb_name v) path)
      by (right; apply verb_not_inherited).
    rewrite String.eqb_refl.
    now destruct (List.find _ (bucket_of (routes this) (verb_name v))).
  - intros method Hi. unfold getRoute, all, request_for. cbn [req_method req_path].
    rewrite (findRoute_value this method path) by now right.
    rewrite (findRoute_all this path).
    rewrite (findRoute_push_route this "ALL" path handler method path _
               (findRoute_value this method path (or_intror Hi))).
    rewrite findRoute_push_same, !String.eqb_refl.
    destruct (List.find _ (bucket_of (routes this) method)) as [own|] eqn:Hm;
      [reflexivity|].
    destruct (String.eqb "ALL" method) eqn:E; cbn [andb].
    + apply String.eqb_eq in E. subst method. now rewrite Hm.
    + now destruct (List.find _ (bucket_of (routes this) "ALL")).
  - intros method Hi Hn. apply getRoute_raise; cbn [req_method request_for]; [|exact Hi].
    unfold all, push_route. simpl. rewrite lookup_insert_ne; [exact Hn|].
    intros <-. discriminate.
Qed.

Lemma X3_register_then_lookup_witness :
  getRoute (all new_Router "/abc" widgets) (request_for JNull ∅ "PATCH" "/abc")
  = Value (Some {| route_path := "/abc"; route_handler := widgets |})
  /\ getRoute (all new_Router "/abc" widgets) (request_for JNull ∅ "valueOf" "/abc")
     = Raise find_is_not_a_function.
Proof.
  destruct (X3_register_then_lookup new_Router "/abc" widgets JNull ∅) as (_ & K & R).
  split.
  - apply (K "PATCH" eq_refl).
  - apply (R "valueOf" eq_refl eq_refl).
Defined.

(** X4: a route of the request's own method is preferred to a route of
    the "ALL" bucket for the same path, whichever of the two was
    registered first. *)
Theorem X4_method_route_before_all (this : Router) (v : Verb) (path : string)
  (own any : Handler) (body : JsValue) (headers : gmap string string) :
  findRoute this (verb_name v) path = Value None ->
  let req := request_for body headers (verb_name v) path in
  let route := {| route_path := path; route_handler := own |} in
  getRoute (register v (all this path any) path own) req = Value (Some route)
  /\ getRoute (all (register v this path own) path any) req = Value (Some route).
Proof.
  intros H req route. rewrite register_push.
  unfold getRoute, all, req, request_for. cbn [req_method req_path].
  pose proof (findRoute_value_inv _ _ _ _ H) as [_ Hf].
  split.
  - rewrite findRoute_push_same, bucket_push_route, verb_not_all, app_nil_r.
    now rewrite <- Hf, String.eqb_refl.
  - rewrite (findRoute_push_other _ "ALL") by apply verb_not_all.
    rewrite findRoute_push_same. now rewrite <- Hf, String.eqb_refl.
Qed.

Lemma X4_method_route_before_all_witness :
  getRoute (get (all new_Router "/abc" failing) "/abc" widgets) request0
  = Value (Some {| route_path := "/abc"; route_handler := widgets |})
  /\ getRoute (all (get new_Router "/abc" widgets) "/abc" failing) request0
     = Value (Some {| route_path := "/abc"; route_handler := widgets |}).
Proof.
  apply (X4_method_route_before_all new_Router GET "/abc" widgets failing JNull ∅ eq_refl).
Defined.

Lemma perform_routes (this this' : Router) (c : Call) :
  routes this = routes this' -> routes (perform this c) = routes (perform this' c).
Proof.
  intros H. destruct c; simpl; unfold post, get, put, delete, all, push_route; simpl;
    now rewrite ?H.
Qed.

Lemma perform_routes_use (this : Router) (c : Call) :
  is_use c = true -> routes (perform this c) = routes this.
Proof. destruct c; simpl; intros H; try discriminate; reflexivity. Qed.

Lemma perform_middlewares (this this' : Router) (c : Call) :
  middlewares this = middlewares this' ->
  middlewares (perform this c) = middlewares (perform this' c).
Proof.
  intros H. destruct c; simpl; try exact H; unfold useRouter, use; simpl; now rewrite H.
Qed.

Lemma perform_middlewares_route (this : Router) (c : Call) :
  is_route c = true -> middlewares (perform this c) = middlewares this.
Proof. destruct c; simpl; intros H; try discriminate; reflexivity. Qed.

Lemma compose_routes (cs : list Call) :
  routes (compose cs) = routes (compose (List.filter is_route cs)).
Proof.
  induction cs as [|c cs IH] using rev_ind; [reflexivity|].
  rewrite List.filter_app, compose_snoc. simpl.
  destruct (is_route c) eqn:E.
  - rewrite compose_snoc. now apply perform_routes.
  - rewrite app_nil_r, perform_routes_use; [exact IH|].
    unfold is_route in E. now destruct (is_use c).
Qed.

Lemma compose_steps (cs : list Call) :
  middlewares (compose cs) = middlewares (compose (List.filter is_use cs)).
Proof.
  induction cs as [|c cs IH] using rev_ind; [reflexivity|].
  rewrite List.filter_app, compose_snoc. simpl.
  destruct (is_use c) eqn:E.
  - rewrite compose_snoc. now apply perform_middlewares.
  - rewrite app_nil_r, perform_middlewares_route; [exact IH|].
    unfold is_route. now rewrite E.
Qed.

(** X5: route registrations and [use] calls do not interfere.  A router
    composed by any sequence of calls has the route table of its route
    registrations alone and the middleware steps of its [use] calls alone,
    so the order between the two kinds of call is irrelevant; [use] leaves
    lookup as it was, and a registration leaves the steps as they
    were. *)
Theorem X5_routes_and_middleware_independent (cs : list Call) :
  compose cs
  = {| routes := routes (compose (List.filter is_route cs));
       middlewares := middlewares (compose (List.filter is_use cs)) |}
  /\ (forall (m : Middleware) (req : Request),
         getRoute (use (compose cs) m) req = getRoute (compose cs) req)
  /\ (forall (s : string) (child : Router) (req : Request),
         getRoute (useRouter (compose cs) s child) req = getRoute (compose cs) req)
  /\ (forall (v : Verb) (p : string) (h : Handler),
         middlewares (register v (compose cs) p h) = middlewares (compose cs))
  /\ (forall (p : string) (h : Handler),
         middlewares (all (compose cs) p h) = middlewares (compose cs)).
Proof.
  split.
  - rewrite <- compose_routes, <- compose_steps. now destruct (compose cs).
  - split; [reflexivity|]. split; [reflexivity|]. split; [|reflexivity].
    intros v p h. now destruct v.
Qed.

(* ===================================================================== *)
(** ** Further properties: class Response *)
(* ===================================================================== *)

(** X6: [send(d)] sets the body to [d], calls the resolver once and
    returns the same instance; it leaves the status code and the content
    type as they were, so after [status(c)] then [send(d)] on a response
    whose promise is pending the promise is fulfilled with status [c],
    body [d] and the content type the response had (text/html on a new
    response). *)
Theorem X6_send_keeps_status_and_type (w : World) (this : Ref) (r : Response) (p : Ref)
  (code : Z) (data : string) :
  responses w !! this = Some r ->
  res_resolver r = ResolveResult p ->
  (exists w',
      send this data w = Returned this w'
      /\ responses w' !! this
         = Some {| res_resolver := ResolveResult p; res_statusCode := res_statusCode r;
                   res_body := data; res_contentType := res_contentType r |}
      /\ resolverCalls w'
         = (p, result_of (res_statusCode r) data (res_contentType r)) :: resolverCalls w
      /\ requests w' = requests w
      /\ unhandled w' = unhandled w)
  /\ (exists w',
         (do res' <- status this code; send res' data) w = Returned this w'
         /\ resolverCalls w'
            = (p, result_of code data (res_contentType r)) :: resolverCalls w
         /\ (promises w !! p = Some Pending ->
             promises w' !! p
             = Some (Fulfilled (result_of code data (res_contentType r))))).
Proof.
  intros H Hp. split.
  - rewrite (send_ok _ _ _ p _ H Hp). eexists. split; [reflexivity|].
    split; [|repeat split].
    simpl. rewrite list_lookup_insert_eq by (eapply lookup_lt_Some; eauto).
    unfold set_body. now rewrite Hp.
  - unfold bind. rewrite (status_ok _ _ _ _ H).
    rewrite (send_ok _ _ (set_statusCode code r) p);
      [| eapply lookup_updated_response; eauto | exact Hp].
    eexists. split; [reflexivity|]. split; [reflexivity|].
    intros Hq. simpl. now apply settle_pending.
Qed.

Lemma X6_send_keeps_status_and_type_witness :
  exists w',
    (do res' <- status 0%nat 201; send res' "created") world1 = Returned 0%nat w'
    /\ promises w' !! 0%nat = Some (Fulfilled (result_of 201 "created" "text/html")).
Proof.
  destruct (X6_send_keeps_status_and_type world1 0%nat response0 0%nat 201 "created"
              eq_refl eq_refl) as [_ (w' & E & _ & K)].
  exists w'. split; [exact E | exact (K eq_refl)].
Defined.

(* ===================================================================== *)
(** ** Further properties: getResponse *)
(* ===================================================================== *)

Arguments dispatch : simpl never.

Lemma getResponse_outcome (this : Router) (req : Ref) (w : World) :
  getResponse this req w
  = match dispatch this req (length (responses w)) (with_fresh_response w) with
    | Returned _ w' => Returned (length (promises w)) w'
    | Threw e w' =>
        Returned (length (promises w))
          (set_promises (settle (length (promises w)) (Rejected e)) w')
    | OutOfFuel => OutOfFuel
    end.
Proof.
  unfold getResponse, bind, new_Promise, executor, new_Response, with_fresh_response,
    fresh_response, reject, ret. simpl.
  now destruct (dispatch this req (length (responses w)) _).
Qed.

Lemma fresh_response_lookup (w : World) :
  responses (with_fresh_response w) !! length (responses w) = Some (fresh_response w)
  /\ promises (with_fresh_response w) !! length (promises w) = Some Pending
  /\ requests (with_fresh_response w) = requests w.
Proof.
  simpl. split; [|split]; [apply list_lookup_middle | apply list_lookup_middle |];
    reflexivity.
Qed.

Lemma dispatch_without_middleware (this : Router) (req res : Ref) :
  middlewares this = [Terminator] ->
  dispatch this req res = unawaited (handleRequest this req res).
Proof.
  intros H. unfold dispatch. rewrite H. change (length [Terminator]) with 1%nat.
  apply call_terminator. now rewrite H.
Qed.

(** X7: on a router without middleware, for a request for which route
    lookup returns a route,
    [getResponse] calls the route's handler with the request and a new
    response (status 200, empty body, text/html) whose promise is pending,
    and returns that promise.  When the handler returns, the store is as
    the handler left it.  When the handler throws, [getResponse] still
    returns normally: the exception becomes an unhandled rejection and the
    promise is not rejected, it stays as the handler left it. *)
Theorem X7_handler_outcome (this : Router) (w : World) (req : Ref) (r : Request)
  (route : Route) :
  middlewares this = [Terminator] ->
  requests w !! req = Some r ->
  getRoute this r = Value (Some route) ->
  let res := length (responses w) in
  let p := length (promises w) in
  let w0 := with_fresh_response w in
  responses w0 !! res = Some (fresh_response w)
  /\ promises w0 !! p = Some Pending
  /\ (forall w', route_handler route req res w0 = Returned tt w' ->
                 getResponse this req w = Returned p w')
  /\ (forall e w', route_handler route req res w0 = Threw e w' ->
                   getResponse this req w = Returned p (log_unhandled e w')
                   /\ promises (log_unhandled e w') = promises w').
Proof.
  intros Hm H Hr res p w0.
  destruct (fresh_response_lookup w) as (H1 & H2 & H3).
  split; [exact H1|]. split; [exact H2|].
  assert (E : dispatch this req res w0 = unawaited (route_handler route req res) w0).
  { rewrite (dispatch_without_middleware _ _ _ Hm). unfold unawaited.
    rewrite (handleRequest_hit this w0 req res r route); [reflexivity | | exact Hr].
    unfold w0. now rewrite H3. }
  split.
  - intros w' Hh. rewrite getResponse_outcome. fold res w0. rewrite E.
    unfold unawaited. now rewrite Hh.
  - intros e w' Hh. split; [|reflexivity].
    rewrite getResponse_outcome. fold res w0. rewrite E.
    unfold unawaited. now rewrite Hh.
Qed.

Lemma X7_handler_outcome_witness :
  exists w',
    getResponse (get new_Router "/abc" failing) 0%nat (world_of request0) = Returned 1%nat w'
    /\ promises w' !! 1%nat = Some Pending
    /\ unhandled w' = [boom].
Proof.
  destruct (X7_handler_outcome (get new_Router "/abc" failing) (world_of request0) 0%nat
              request0 {| route_path := "/abc"; route_handler := failing |}
              eq_refl eq_refl eq_refl) as (_ & _ & _ & K).
  destruct (K boom (with_fresh_response (world_of request0)) eq_refl) as [E _].
  eexists. split; [exact E|]. split; reflexivity.
Defined.

(** X8: an exception that leaves the middleware chain of a composed
    router rejects the promise of [getResponse] with that exception when
    the promise is still pending, and leaves a promise that is already
    fulfilled as it is; [getResponse] itself returns normally.  Route
    dispatch at the end of the chain never lets an exception out. *)
Theorem X8_middleware_exception_rejects (cs : list Call) (w : World) (req : Ref)
  (e : JsError) (w' : World) :
  let this := compose cs in
  let res := length (responses w) in
  let p := length (promises w) in
  chain (registered cs) (unawaited (handleRequest this req res)) req res
    (with_fresh_response w) = Threw e w' ->
  getResponse this req w = Returned p (set_promises (settle p (Rejected e)) w')
  /\ (promises w' !! p = Some Pending ->
      settle p (Rejected e) (promises w') !! p = Some (Rejected e))
  /\ (forall v, promises w' !! p = Some (Fulfilled v) ->
                settle p (Rejected e) (promises w') !! p = Some (Fulfilled v))
  /\ (forall w1 e1 w2, unawaited (handleRequest this req res) w1 <> Threw e1 w2).
Proof.
  intros this res p H. split; [|split; [|split]].
  - rewrite getResponse_outcome. fold res p.
    rewrite (dispatch_chain this (registered cs)) by apply compose_middlewares.
    now rewrite H.
  - apply settle_pending.
  - intros v. apply settle_settled.
  - intros w1 e1 w2. unfold unawaited.
    destruct (handleRequest this req res w1); discriminate.
Qed.

Lemma X8_middleware_exception_rejects_witness :
  settled (getResponse
             (compose [CUse (mark "a"); CUse failing_middleware; CGet "/abc" widgets])
             0%nat (world_of request0))
  = Some (Rejected boom).
Proof.
  destruct (X8_middleware_exception_rejects
              [CUse (mark "a"); CUse failing_middleware; CGet "/abc" widgets]
              (world_of request0) 0%nat boom
              (set_responses (fun l => <[1%nat := set_body "a" (fresh_response (world_of request0))]> l)
                 (with_fresh_response (world_of request0)))
              eq_refl) as (E & K & _).
  rewrite E. simpl. apply K. reflexivity.
Defined.

(* ===================================================================== *)
(** ** Further properties: mounting *)
(* ===================================================================== *)

Lemma stripped_app (s q : string) (r : Request) :
  req_path r = s +:+ q -> stripped s r = set_path q r.
Proof. intros H. unfold stripped. now rewrite H, substring_from_app. Qed.

Lemma startsWith_path (s q : string) (r : Request) :
  req_path r = s +:+ q -> startsWith (req_path r) s = true.
Proof. intros ->. apply startsWith_app. Qed.

Lemma mount_hit (s q : string) (C : Router) (req res : Ref) (next : M unit)
  (w : World) (r : Request) (route : Route) :
  requests w !! req = Some r ->
  req_path r = s +:+ q ->
  getRoute C (set_path q r) = Value (Some route) ->
  mount s C req res next w
  = unawaited (route_handler route req res)
      (set_requests (fun l => <[req := set_path q r]> l) w).
Proof.
  intros H Hp Hr.
  rewrite (mount_route s C req res next w r route H (startsWith_path _ _ _ Hp))
    by (now rewrite (stripped_app _ _ _ Hp)).
  rewrite (stripped_app _ _ _ Hp). unfold unawaited.
  rewrite (handleRequest_hit C _ req res (set_path q r) route);
    [reflexivity | eapply lookup_updated_request; eauto | exact Hr].
Qed.

Lemma mount_miss (s q : string) (C : Router) (req res : Ref) (next : M unit)
  (w : World) (r : Request) :
  requests w !! req = Some r ->
  req_path r = s +:+ q ->
  getRoute C (set_path q r) = Value None ->
  mount s C req res next w = next w.
Proof.
  intros H Hp Hn.
  apply (mount_no_route s C req res next w r H (startsWith_path _ _ _ Hp)).
  now rewrite (stripped_app _ _ _ Hp).
Qed.

Lemma dispatch_composed (cs : list Call) (req res : Ref) :
  dispatch (compose cs) req res
  = chain (registered cs) (unawaited (handleRequest (compose cs) req res)) req res.
Proof. apply dispatch_chain, compose_middlewares. Qed.

(** X9: a route that the child's lookup returns for the request's method
    and the path [q] is reached at the path [s ++ q] of a parent that
    mounts the child at [s] as its first middleware, for every [s] and
    [q]: plain concatenation, no separator is added or expected.  The
    handler runs on the request with the path rewritten to [q], and the
    prefix is not put back afterwards. *)
Theorem X9_mounted_route_at_concatenation (s q : string) (C : Router) (cs : list Call)
  (req res : Ref) (w : World) (r : Request) (route : Route) :
  requests w !! req = Some r ->
  req_path r = s +:+ q ->
  getRoute C (set_path q r) = Value (Some route) ->
  dispatch (compose (CUseRouter s C :: cs)) req res w
  = unawaited (route_handler route req res)
      (set_requests (fun l => <[req := set_path q r]> l) w).
Proof.
  intros H Hp Hr. rewrite dispatch_composed. cbn [registered chain foldr].
  now apply mount_hit.
Qed.

Lemma X9_mounted_route_at_concatenation_witness :
  dispatch (compose [CUseRouter "/api" plain_child]) 0%nat 0%nat (world_of request_api)
  = unawaited (widgets 0%nat 0%nat)
      (set_requests (fun l => <[0%nat := set_path "/widgets" request_api]> l)
         (world_of request_api)).
Proof.
  apply (X9_mounted_route_at_concatenation "/api" "/widgets" plain_child [] 0%nat 0%nat
           (world_of request_api) request_api
           {| route_path := "/widgets"; route_handler := widgets |}
           eq_refl eq_refl eq_refl).
Defined.

(** X10: two routers mounted at the same prefix share it.  When the
    lookup of the first answers that it has no route for the stripped path
    and the lookup of the second returns one, the second router's handler
    runs, on the path stripped once. *)
Theorem X10_siblings_share_a_prefix (s q : string) (C1 C2 : Router) (cs : list Call)
  (req res : Ref) (w : World) (r : Request) (route : Route) :
  requests w !! req = Some r ->
  req_path r = s +:+ q ->
  getRoute C1 (set_path q r) = Value None ->
  getRoute C2 (set_path q r) = Value (Some route) ->
  dispatch (compose (CUseRouter s C1 :: CUseRouter s C2 :: cs)) req res w
  = unawaited (route_handler route req res)
      (set_requests (fun l => <[req := set_path q r]> l) w).
Proof.
  intros H Hp Hn Hr. rewrite dispatch_composed. cbn [registered chain foldr].
  rewrite (mount_miss s q C1 req res _ w r H Hp Hn).
  now apply mount_hit.
Qed.

Lemma X10_siblings_share_a_prefix_witness :
  dispatch (compose [CUseRouter "/api" new_Router; CUseRouter "/api" plain_child])
    0%nat 0%nat (world_of request_api)
  = unawaited (widgets 0%nat 0%nat)
      (set_requests (fun l => <[0%nat := set_path "/widgets" request_api]> l)
         (world_of request_api)).
Proof.
  apply (X10_siblings_share_a_prefix "/api" "/widgets" new_Router plain_child [] 0%nat 0%nat
           (world_of request_api) request_api
           {| route_path := "/widgets"; route_handler := widgets |}
           eq_refl eq_refl eq_refl eq_refl).
Defined.

Lemma getRoute_no_routes (this : Router) (r : Request) :
  routes this = ∅ ->
  inherited (req_method r) = false ->
  getRoute this r = Value None.
Proof.
  intros H Hi. unfold getRoute, findRoute. rewrite H, !lookup_empty, Hi. reflexivity.
Qed.

(** X11: mounting does not nest.  Let a grandchild be mounted at [t] in
    a child and the child at [s] in a new application.  A request for
    [s ++ t ++ q], of a method that names no property inherited from
    [Object.prototype], is answered 404 whenever the child's own lookup
    answers that it has no route for [t ++ q], even though the
    grandchild's lookup returns a route for [q]:
    the mount step looks at the child's route table only, restores the
    path and falls through, and no handler of the grandchild runs. *)
Theorem X11_nested_mount_is_not_reached (s t q : string) (C0 G : Router) (w : World)
  (req : Ref) (r : Request) (route : Route) :
  requests w !! req = Some r ->
  req_path r = s +:+ (t +:+ q) ->
  inherited (req_method r) = false ->
  getRoute G (set_path q r) = Value (Some route) ->
  getRoute C0 (set_path (t +:+ q) r) = Value None ->
  let P := useRouter newApp s (useRouter C0 t G) in
  let p := length (promises w) in
  getResponse P req w
  = Returned p
      (set_promises (settle p (Fulfilled not_found_result))
         (log_resolverCall p not_found_result
            (set_responses
               (fun l => <[length (responses w) := not_found_response (fresh_response w)]> l)
               (with_fresh_response w))))
  /\ settled (getResponse P req w) = Some (Fulfilled not_found_result).
Proof.
  intros H Hp Hi _ Hn P p.
  destruct (fresh_response_lookup w) as (H1 & H2 & H3).
  assert (E : getResponse P req w
              = Returned p
                  (set_promises (settle p (Fulfilled not_found_result))
                     (log_resolverCall p not_found_result
                        (set_responses
                           (fun l => <[length (responses w)
                                       := not_found_response (fresh_response w)]> l)
                           (with_fresh_response w))))).
  { rewrite getResponse_outcome.
    change P with (compose [CUseRouter s (useRouter C0 t G)]).
    rewrite dispatch_composed. cbn [registered chain foldr].
    rewrite (mount_miss s (t +:+ q) (useRouter C0 t G) req _ _ (with_fresh_response w) r);
      [| now rewrite H3 | exact Hp | exact Hn].
    unfold unawaited.
    rewrite (handleRequest_miss _ _ req _ r (fresh_response w) p);
      [reflexivity | now rewrite H3 | exact H1 | reflexivity |].
    apply getRoute_no_routes; [reflexivity | exact Hi]. }
  split; [exact E|]. rewrite E. simpl. now apply settle_pending.
Qed.

Lemma X11_nested_mount_is_not_reached_witness :
  settled (getResponse (useRouter newApp "/api" (useRouter new_Router "/v1" plain_child))
             0%nat
             (world_of (request_for JNull ∅ "GET" "/api/v1/widgets")))
  = Some (Fulfilled not_found_result).
Proof.
  apply (X11_nested_mount_is_not_reached "/api" "/v1" "/widgets" new_Router plain_child
           (world_of (request_for JNull ∅ "GET" "/api/v1/widgets")) 0%nat
           (request_for JNull ∅ "GET" "/api/v1/widgets")
           {| route_path := "/widgets"; route_handler := widgets |}
           eq_refl eq_refl eq_refl eq_refl eq_refl).
Defined.

(* ===================================================================== *)
(** ** Further properties: the adapter *)
(* ===================================================================== *)

Lemma parseRequest_headers (event : APIGatewayProxyEvent) (context : Context) (w : World) :
  exists request,
    parseRequest event context w
    = Returned (length (requests w)) (set_requests (fun l => l ++ [request]) w)
    /\ req_method request = httpMethod event
    /\ req_path request = event_path event
    /\ req_headers request
       = <["x-apigateway-context" :=
             encodeURIComponent (JSON.stringify (context_snapshot context))]>
           (event_headers event).
Proof. unfold parseRequest, new_Request. eexists. repeat split. Qed.

(** X12: the request that the adapter builds has the method and the path
    of the event and every header of the event under its own name, except
    "x-apigateway-context": that header always holds the URI-encoded JSON
    snapshot of the context, also when the event brought a header of that
    name.  The snapshot has every property of the context but
    [getRemainingTimeInMillis].  The requests already in the store are
    left as they are. *)
Theorem X12_request_headers (event : APIGatewayProxyEvent) (context : Context) (w : World) :
  exists request fields,
    parseRequest event context w
    = Returned (length (requests w)) (set_requests (fun l => l ++ [request]) w)
    /\ req_method request = httpMethod event
    /\ req_path request = event_path event
    /\ context_snapshot context = JObj fields
    /\ (forall k v, In (k, v) fields
                    <-> In (k, v) context /\ k <> "getRemainingTimeInMillis")
    /\ req_headers request !! "x-apigateway-context"
       = Some (encodeURIComponent (JSON.stringify (JObj fields)))
    /\ (forall k, k <> "x-apigateway-context" ->
                  req_headers request !! k = event_headers event !! k)
    /\ (forall i, (i < length (requests w))%nat ->
                  (requests w ++ [request]) !! i = requests w !! i).
Proof.
  destruct (parseRequest_headers event context w) as (rq & E & Hm & Hp & Hh).
  exists rq. eexists. split; [exact E|]. split; [exact Hm|]. split; [exact Hp|].
  split; [reflexivity|]. split; [|split; [|split]].
  - intros k v. rewrite List.filter_In. simpl.
    rewrite Bool.negb_true_iff, String.eqb_neq. reflexivity.
  - rewrite Hh. apply lookup_insert_eq.
  - intros k Hk. rewrite Hh. now apply lookup_insert_ne.
  - intros i Hi. now apply lookup_app_l.
Qed.

Lemma X12_request_headers_witness :
  exists request,
    allocated_request (parseRequest spoofing_event [("getRemainingTimeInMillis", JNull)]
                         empty_world) = Some request
    /\ req_headers request !! "host" = Some "example.org"
    /\ req_headers request !! "x-apigateway-context" = Some "%7B%7D".
Proof.
  destruct (X12_request_headers spoofing_event [("getRemainingTimeInMillis", JNull)]
              empty_world) as (rq & fields & E & _ & _ & Hs & _ & Hc & Hk & _).
  exists rq. split; [now rewrite E|]. split.
  - rewrite (Hk "host") by discriminate. reflexivity.
  - rewrite Hc. injection Hs as <-. reflexivity.
Defined.

(** X13: on a router without middleware, an event for whose method and
    path lookup answers that there is no route, neither in the method's
    bucket nor in the "ALL" bucket, is answered 404 by
    [getLambdaResponse], whatever its body, its base64 flag, its headers
    and the context. *)
Theorem X13_unrouted_event_is_not_found (this : Router) (event : APIGatewayProxyEvent)
  (context : Context) (w : World) :
  middlewares this = [Terminator] ->
  findRoute this (httpMethod event) (event_path event) = Value None ->
  findRoute this "ALL" (event_path event) = Value None ->
  settled (getLambdaResponse this event context w) = Some (Fulfilled not_found_result).
Proof.
  intros Hmw Hm Ha.
  destruct (parseRequest_headers event context w) as (rq & E & Hmeth & Hpath & _).
  unfold getLambdaResponse, bind. rewrite E.
  set (w1 := set_requests (fun l => l ++ [rq]) w).
  assert (Hrq : requests w1 !! length (requests w) = Some rq)
    by (simpl; now apply list_lookup_middle).
  assert (Hn : getRoute this rq = Value None)
    by (unfold getRoute; now rewrite Hmeth, Hpath, Hm, Ha).
  destruct (fresh_response_lookup w1) as (H1 & H2 & H3).
  rewrite getResponse_outcome, (dispatch_without_middleware _ _ _ Hmw).
  unfold unawaited.
  rewrite (handleRequest_miss this _ _ _ rq (fresh_response w1) (length (promises w1)));
    [| now rewrite H3 | exact H1 | reflexivity | exact Hn].
  simpl. apply settle_pending. now apply list_lookup_middle.
Qed.

Lemma X13_unrouted_event_is_not_found_witness :
  settled (getLambdaResponse newApp (event_of (Some "aGVsbG8=") true) [] empty_world)
  = Some (Fulfilled not_found_result).
Proof.
  apply (X13_unrouted_event_is_not_found newApp (event_of (Some "aGVsbG8=") true) []
           empty_world eq_refl eq_refl eq_refl).
Defined.
